(** * Disintegrate: the animation phase controller of [Disintegrate.tsx]

    A shallow embedding of the component's phase clock ([getPhaseProgress],
    [getEffectIntensity], the easing functions) and of its controller
    ([startDisintegration], [animate], [resetEffect], the two effects), with
    the properties of the specification stated over them.

    JavaScript numbers are IEEE 754 binary64 values: they are modelled by
    Rocq's primitive floats, whose operations are the same correctly rounded
    operations and evaluate inside the kernel. *)

From Stdlib Require Import ZArith Lia List Bool Floats QArith Lqa.
Import ListNotations.

Set Warnings "-inexact-float".

Local Open Scope float_scope.

(** ** JavaScript values *)

(** [x = d] in a destructuring pattern: the default replaces [undefined]
    only, so a field that holds [0] keeps it. *)
Definition orDefault (x : option float) (d : float) : float :=
  match x with
  | Some v => v
  | None => d
  end.

(** Truthiness of a number: [0], [-0] and [NaN] are falsy. *)
Definition truthy (x : float) : bool :=
  negb (x =? 0) && negb (is_nan x).

(** Truthiness of [number | undefined]. *)
Definition truthyOpt (x : option float) : bool :=
  match x with
  | Some v => truthy v
  | None => false
  end.

(** [x || d] on [number | undefined]: [d] replaces every falsy value. *)
Definition orElse (x : option float) (d : float) : float :=
  match x with
  | Some v => if truthy v then v else d
  | None => d
  end.

(** [Math.floor]: the largest integral value not above [x]; zeros,
    infinities and NaN are returned as they are. *)
Definition Math_floor (x : float) : float :=
  match Prim2SF x with
  | S754_finite s m e =>
      if (0 <=? e)%Z then x
      else SF2Prim (binary_normalize prec emax
                      (Z.shiftr (cond_Zopp s (Zpos m)) (- e)) 0 s)
  | _ => x
  end.

(** ** Data model *)

Module Direction.
Inductive t : Set := random | left | up.

Definition eqb (a b : t) : bool :=
  match a, b with
  | random, random | left, left | up, up => true
  | _, _ => false
  end.
End Direction.

(** The type of [animationPhase]. *)
Inductive Phase : Set := initial | fadeIn | hold | fadeOut | complete.

Definition Phase_eqb (a b : Phase) : bool :=
  match a, b with
  | initial, initial | fadeIn, fadeIn | hold, hold
  | fadeOut, fadeOut | complete, complete => true
  | _, _ => false
  end.

(** Position of a phase on the run's timeline. *)
Definition phaseRank (p : Phase) : nat :=
  match p with
  | initial => 0
  | fadeIn => 1
  | hold => 2
  | fadeOut => 3
  | complete => 4
  end.

(** [interface AnimationTiming]: every field is optional. *)
Record AnimationTiming : Set := {
  initialDelay : option float;
  fadeInDuration : option float;
  holdDuration : option float;
  fadeOutDuration : option float
}.

(** The default value of the [timing] prop. *)
Definition defaultTiming : AnimationTiming :=
  {| initialDelay := Some 200;
     fadeInDuration := Some 400;
     holdDuration := Some 200;
     fadeOutDuration := Some 1200 |}.

(** ** PhaseClock *)

Definition easeOutCubic (t : float) : float :=
  1 - (1 - t) * (1 - t) * (1 - t).

Definition easeInCubic (t : float) : float := t * t * t.

(** The four durations [getPhaseProgress] destructures out of [timing]. *)
Definition delayOf (timing : AnimationTiming) : float :=
  orDefault (initialDelay timing) 200.
Definition fadeInOf (timing : AnimationTiming) : float :=
  orDefault (fadeInDuration timing) 400.
Definition holdOf (timing : AnimationTiming) : float :=
  orDefault (holdDuration timing) 200.
Definition fadeOutOf (timing : AnimationTiming) : float :=
  orDefault (fadeOutDuration timing) 1200.

Definition getPhaseProgress (timing : AnimationTiming) (elapsed : float)
  : Phase * float :=
  let initialDelay := delayOf timing in
  let fadeInDuration := fadeInOf timing in
  let holdDuration := holdOf timing in
  let fadeOutDuration := fadeOutOf timing in
  let totalDuration :=
    initialDelay + fadeInDuration + holdDuration + fadeOutDuration in
  if elapsed <? initialDelay then
    (initial, elapsed / initialDelay)
  else if elapsed <? initialDelay + fadeInDuration then
    (fadeIn, (elapsed - initialDelay) / fadeInDuration)
  else if elapsed <? initialDelay + fadeInDuration + holdDuration then
    (hold, (elapsed - initialDelay - fadeInDuration) / holdDuration)
  else if elapsed <? totalDuration then
    (fadeOut,
     (elapsed - initialDelay - fadeInDuration - holdDuration) / fadeOutDuration)
  else (complete, 1).

Definition getEffectIntensity (phase : Phase) (progress : float) : float :=
  match phase with
  | initial => 0
  | fadeIn => easeInCubic progress * 0.3
  | hold => 0.3
  | fadeOut => 0.3 + (progress * 0.7)
  | complete => 0
  end.

(** Elapsed time to intensity: what [animate] computes on each tick. *)
Definition intensityAt (timing : AnimationTiming) (elapsed : float) : float :=
  let '(phase, progress) := getPhaseProgress timing elapsed in
  getEffectIntensity phase progress.

(** ** The rendering filter *)

(** Channel selector tags of [feDisplacementMap]. *)
Module Channel.
Inductive t : Set := R | G | B | A.
End Channel.

(** The attributes of the [<filter>] element's children that the component
    writes.  An attribute holds the number before its [toString()]; the
    literal ['0'] is the number [0].  [seed] is absent until it is set. *)
Record FilterElement : Set := {
  seed : option float;
  scale : float;
  xChannelSelector : Channel.t;
  yChannelSelector : Channel.t
}.

(** The filter as the JSX renders it: [scale="0"], [xChannelSelector="G"],
    [yChannelSelector="R"]. *)
Definition renderedFilter : FilterElement :=
  {| seed := None; scale := 0;
     xChannelSelector := Channel.G; yChannelSelector := Channel.R |}.

(** One [setAttribute] call. *)
Inductive AttrWrite : Set :=
| SetSeed (v : float)
| SetScale (v : float)
| SetXChannelSelector (c : Channel.t)
| SetYChannelSelector (c : Channel.t).

Definition applyWrite (a : AttrWrite) (f : FilterElement) : FilterElement :=
  match a with
  | SetSeed v =>
      {| seed := Some v; scale := scale f;
         xChannelSelector := xChannelSelector f;
         yChannelSelector := yChannelSelector f |}
  | SetScale v =>
      {| seed := seed f; scale := v;
         xChannelSelector := xChannelSelector f;
         yChannelSelector := yChannelSelector f |}
  | SetXChannelSelector c =>
      {| seed := seed f; scale := scale f;
         xChannelSelector := c;
         yChannelSelector := yChannelSelector f |}
  | SetYChannelSelector c =>
      {| seed := seed f; scale := scale f;
         xChannelSelector := xChannelSelector f;
         yChannelSelector := c |}
  end.

(** ** The component *)

(** What one render of the component closes over: the props (after their
    defaults) and the state values of that render.  [animate] and
    [resetEffect] scheduled by a render keep reading these values. *)
Record Render : Set := {
  isActive : bool;
  onComplete : bool;          (* whether the [onComplete] prop is given *)
  direction : Direction.t;
  timing : AnimationTiming;
  isDisintegrating : bool;
  animationPhase : Phase
}.

(** The mutable world the component runs in: React's state cells and refs,
    the filter element behind [filterRef], and the browser (clock, random
    source, pending animation frames and timers).  [writes] records every
    [setAttribute] call, most recent first; [completions] counts the calls
    of [onComplete]. *)
Record World : Type := {
  st_isDisintegrating : bool;
  st_animationPhase : Phase;
  animationRef : option positive;
  startTimeRef : option float;
  filterRef : option FilterElement;
  clock : nat -> float;
  clockReads : nat;
  entropy : nat -> float;
  entropyReads : nat;
  frames : list (positive * Render);
  nextFrame : positive;
  timers : list Render;
  writes : list AttrWrite;
  completions : nat
}.

Definition setIsDisintegrating (v : bool) (w : World) : World :=
  {| st_isDisintegrating := v;
     st_animationPhase := st_animationPhase w;
     animationRef := animationRef w; startTimeRef := startTimeRef w;
     filterRef := filterRef w;
     clock := clock w; clockReads := clockReads w;
     entropy := entropy w; entropyReads := entropyReads w;
     frames := frames w; nextFrame := nextFrame w; timers := timers w;
     writes := writes w; completions := completions w |}.

Definition setAnimationPhase (v : Phase) (w : World) : World :=
  {| st_isDisintegrating := st_isDisintegrating w;
     st_animationPhase := v;
     animationRef := animationRef w; startTimeRef := startTimeRef w;
     filterRef := filterRef w;
     clock := clock w; clockReads := clockReads w;
     entropy := entropy w; entropyReads := entropyReads w;
     frames := frames w; nextFrame := nextFrame w; timers := timers w;
     writes := writes w; completions := completions w |}.

Definition setAnimationRef (v : option positive) (w : World) : World :=
  {| st_isDisintegrating := st_isDisintegrating w;
     st_animationPhase := st_animationPhase w;
     animationRef := v; startTimeRef := startTimeRef w;
     filterRef := filterRef w;
     clock := clock w; clockReads := clockReads w;
     entropy := entropy w; entropyReads := entropyReads w;
     frames := frames w; nextFrame := nextFrame w; timers := timers w;
     writes := writes w; completions := completions w |}.

Definition setStartTimeRef (v : option float) (w : World) : World :=
  {| st_isDisintegrating := st_isDisintegrating w;
     st_animationPhase := st_animationPhase w;
     animationRef := animationRef w; startTimeRef := v;
     filterRef := filterRef w;
     clock := clock w; clockReads := clockReads w;
     entropy := entropy w; entropyReads := entropyReads w;
     frames := frames w; nextFrame := nextFrame w; timers := timers w;
     writes := writes w; completions := completions w |}.

Definition setFilterRef (v : option FilterElement) (w : World) : World :=
  {| st_isDisintegrating := st_isDisintegrating w;
     st_animationPhase := st_animationPhase w;
     animationRef := animationRef w; startTimeRef := startTimeRef w;
     filterRef := v;
     clock := clock w; clockReads := clockReads w;
     entropy := entropy w; entropyReads := entropyReads w;
     frames := frames w; nextFrame := nextFrame w; timers := timers w;
     writes := writes w; completions := completions w |}.

Definition setFrames (v : list (positive * Render)) (w : World) : World :=
  {| st_isDisintegrating := st_isDisintegrating w;
     st_animationPhase := st_animationPhase w;
     animationRef := animationRef w; startTimeRef := startTimeRef w;
     filterRef := filterRef w;
     clock := clock w; clockReads := clockReads w;
     entropy := entropy w; entropyReads := entropyReads w;
     frames := v; nextFrame := nextFrame w; timers := timers w;
     writes := writes w; completions := completions w |}.

Definition setTimers (v : list Render) (w : World) : World :=
  {| st_isDisintegrating := st_isDisintegrating w;
     st_animationPhase := st_animationPhase w;
     animationRef := animationRef w; startTimeRef := startTimeRef w;
     filterRef := filterRef w;
     clock := clock w; clockReads := clockReads w;
     entropy := entropy w; entropyReads := entropyReads w;
     frames := frames w; nextFrame := nextFrame w; timers := v;
     writes := writes w; completions := completions w |}.

(** ** The browser *)

(** [performance.now()]: the next reading of the clock. *)
Definition performance_now (w : World) : float * World :=
  (clock w (clockReads w),
   {| st_isDisintegrating := st_isDisintegrating w;
      st_animationPhase := st_animationPhase w;
      animationRef := animationRef w; startTimeRef := startTimeRef w;
      filterRef := filterRef w;
      clock := clock w; clockReads := S (clockReads w);
      entropy := entropy w; entropyReads := entropyReads w;
      frames := frames w; nextFrame := nextFrame w; timers := timers w;
      writes := writes w; completions := completions w |}).

(** [Math.random()]: the next draw of the random source. *)
Definition Math_random (w : World) : float * World :=
  (entropy w (entropyReads w),
   {| st_isDisintegrating := st_isDisintegrating w;
      st_animationPhase := st_animationPhase w;
      animationRef := animationRef w; startTimeRef := startTimeRef w;
      filterRef := filterRef w;
      clock := clock w; clockReads := clockReads w;
      entropy := entropy w; entropyReads := S (entropyReads w);
      frames := frames w; nextFrame := nextFrame w; timers := timers w;
      writes := writes w; completions := completions w |}).

(** [requestAnimationFrame(cb)]: queues the callback under a fresh handle
    (handles are positive integers) and returns the handle. *)
Definition requestAnimationFrame (cb : Render) (w : World)
  : positive * World :=
  (nextFrame w,
   {| st_isDisintegrating := st_isDisintegrating w;
      st_animationPhase := st_animationPhase w;
      animationRef := animationRef w; startTimeRef := startTimeRef w;
      filterRef := filterRef w;
      clock := clock w; clockReads := clockReads w;
      entropy := entropy w; entropyReads := entropyReads w;
      frames := frames w ++ [(nextFrame w, cb)];
      nextFrame := Pos.succ (nextFrame w); timers := timers w;
      writes := writes w; completions := completions w |}).

(** [cancelAnimationFrame(h)]: drops the pending callback with handle [h],
    if there is one. *)
Definition cancelAnimationFrame (h : positive) (w : World) : World :=
  setFrames (filter (fun f => negb (Pos.eqb (fst f) h)) (frames w)) w.

(** [setTimeout(cb, 0)]: queues the callback; the timer's id is dropped by
    the caller. *)
Definition setTimeout (cb : Render) (w : World) : World :=
  setTimers (timers w ++ [cb]) w.

(** [element.setAttribute(...)] on a child of the attached filter. *)
Definition setAttribute (a : AttrWrite) (w : World) : World :=
  {| st_isDisintegrating := st_isDisintegrating w;
     st_animationPhase := st_animationPhase w;
     animationRef := animationRef w; startTimeRef := startTimeRef w;
     filterRef := option_map (applyWrite a) (filterRef w);
     clock := clock w; clockReads := clockReads w;
     entropy := entropy w; entropyReads := entropyReads w;
     frames := frames w; nextFrame := nextFrame w; timers := timers w;
     writes := a :: writes w; completions := completions w |}.

(** A call of the [onComplete] prop. *)
Definition callOnComplete (w : World) : World :=
  {| st_isDisintegrating := st_isDisintegrating w;
     st_animationPhase := st_animationPhase w;
     animationRef := animationRef w; startTimeRef := startTimeRef w;
     filterRef := filterRef w;
     clock := clock w; clockReads := clockReads w;
     entropy := entropy w; entropyReads := entropyReads w;
     frames := frames w; nextFrame := nextFrame w; timers := timers w;
     writes := writes w; completions := S (completions w) |}.

(** ** DisintegrationController *)

(** The object [getDirectionAngles] returns. *)
Record Angles : Set := { xAngle : float; yAngle : float }.

Definition getDirectionAngles (dir : Direction.t) : Angles :=
  match dir with
  | Direction.left => {| xAngle := 0; yAngle := 1 |}
  | Direction.up => {| xAngle := 1; yAngle := 0 |}
  | _ => {| xAngle := 0; yAngle := 0 |}
  end.

(** [x !== 0] on numbers. *)
Definition nonZero (x : float) : bool := negb (x =? 0).

Definition resetEffect (r : Render) (w : World) : World :=
  let w :=
    match filterRef w with
    | Some _ => setAttribute (SetScale 0) w
    | None => w
    end in
  let w := setIsDisintegrating false w in
  let w := setAnimationPhase initial w in
  if onComplete r then callOnComplete w else w.

Definition setRandomSeed (w : World) : World :=
  match filterRef w with
  | Some _ =>
      let '(x, w) := Math_random w in
      setAttribute (SetSeed (Math_floor (x * 1000))) w
  | None => w
  end.

(** The scale [animate] writes: [intensity * (timing.fadeOutDuration || 1200)]. *)
Definition displacementScale (timing : AnimationTiming) (intensity : float)
  : float :=
  intensity * orElse (fadeOutDuration timing) 1200.

(** One tick.  [r] is the render whose [animate] this is: the callback that
    [requestAnimationFrame] re-queues is the same closure. *)
Definition animate (r : Render) (w : World) : World :=
  match startTimeRef w with
  | None => w
  | Some startTime =>
      if negb (truthy startTime) then w
      else
        let '(now, w) := performance_now w in
        let elapsed := now - startTime in
        let '(phase, progress) := getPhaseProgress (timing r) elapsed in
        let intensity := getEffectIntensity phase progress in
        let w :=
          if negb (Phase_eqb phase (animationPhase r))
          then setAnimationPhase phase w
          else w in
        let angles := getDirectionAngles (direction r) in
        let w :=
          match filterRef w with
          | Some _ =>
              let scale := displacementScale (timing r) intensity in
              if Direction.eqb (direction r) Direction.random then
                setAttribute (SetScale scale) w
              else
                let w :=
                  setAttribute
                    (SetXChannelSelector
                       (if nonZero (xAngle angles)
                        then Channel.R else Channel.A)) w in
                let w :=
                  setAttribute
                    (SetYChannelSelector
                       (if nonZero (yAngle angles)
                        then Channel.G else Channel.A)) w in
                setAttribute (SetScale scale) w
          | None => w
          end in
        if negb (Phase_eqb phase complete) then
          let '(h, w) := requestAnimationFrame r w in
          setAnimationRef (Some h) w
        else setTimeout r w
  end.

(** The world in which a tick computes its parameters: the clock has been
    read once, and the phase cell is written when the phase differs from the
    one the render saw. *)
Definition ticked (r : Render) (phase : Phase) (w : World) : World :=
  let w := snd (performance_now w) in
  if negb (Phase_eqb phase (animationPhase r))
  then setAnimationPhase phase w
  else w.

Definition startDisintegration (r : Render) (w : World) : World :=
  let w := setIsDisintegrating true w in
  let w := setAnimationPhase initial w in
  let '(now, w) := performance_now w in
  let w := setStartTimeRef (Some now) w in
  let w := setRandomSeed w in
  animate r w.

(** The world in which the first tick of a run runs: [startDisintegration]
    up to its call of [animate]. *)
Definition armed (w : World) : World :=
  let w := setIsDisintegrating true w in
  let w := setAnimationPhase initial w in
  let '(now, w) := performance_now w in
  let w := setStartTimeRef (Some now) w in
  setRandomSeed w.

(** The effect on [isActive]: React runs it after the render [r] whose
    [isActive] differs from the previous render's (and after the first). *)
Definition isActiveEffect (r : Render) (w : World) : World :=
  if isActive r && negb (isDisintegrating r)
  then startDisintegration r w
  else w.

(** The cleanup of the mount effect.  A handle is a positive integer, so
    [if (animationRef.current)] tests that one was recorded. *)
Definition cleanup (w : World) : World :=
  match animationRef w with
  | Some h => cancelAnimationFrame h w
  | None => w
  end.

(** ** The host: React and the browser's event loop *)

(** The world after the component's first commit: the filter is attached,
    nothing is scheduled. *)
Definition mounted (clock entropy : nat -> float) : World :=
  {| st_isDisintegrating := false;
     st_animationPhase := initial;
     animationRef := None; startTimeRef := None;
     filterRef := Some renderedFilter;
     clock := clock; clockReads := 0;
     entropy := entropy; entropyReads := 0;
     frames := []; nextFrame := 1%positive; timers := [];
     writes := []; completions := 0 |}.

(** A render with the given props reads the state cells. *)
Definition render (active notify : bool) (dir : Direction.t)
  (tm : AnimationTiming) (w : World) : Render :=
  {| isActive := active; onComplete := notify;
     direction := dir; timing := tm;
     isDisintegrating := st_isDisintegrating w;
     animationPhase := st_animationPhase w |}.

(** An animation frame: the browser runs the callbacks that were pending when
    the frame began, in the order they were requested; a callback requested
    meanwhile waits for the next frame. *)
Definition runFrame (w : World) : World :=
  fold_left (fun w f => animate (snd f) w) (frames w) (setFrames [] w).

(** The oldest pending timer fires: its callback is [resetEffect]. *)
Definition runTimer (w : World) : World :=
  match timers w with
  | cb :: rest => resetEffect cb (setTimers rest w)
  | [] => w
  end.

(** Teardown: React detaches [filterRef] and runs the effect's cleanup. *)
Definition unmount (w : World) : World :=
  cleanup (setFilterRef None w).

(** What can happen to a mounted component. *)
Inductive Event : Set :=
| Rendered (active notify : bool) (dir : Direction.t) (tm : AnimationTiming)
    (* a render in which [isActive] changed: the effect runs *)
| Frame
| Timer
| Unmount.

Definition step (w : World) (e : Event) : World :=
  match e with
  | Rendered active notify dir tm =>
      isActiveEffect (render active notify dir tm w) w
  | Frame => runFrame w
  | Timer => runTimer w
  | Unmount => unmount w
  end.

Definition run (w : World) (es : list Event) : World :=
  fold_left step es w.

(** A guarded reading of [getPhaseProgress], in which dividing by zero is a
    fault ([None]) instead of an infinity or a NaN. *)
Definition divide (x y : float) : option float :=
  if y =? 0 then None else Some (x / y).

Definition getPhaseProgress_guarded (timing : AnimationTiming)
  (elapsed : float) : option (Phase * float) :=
  let initialDelay := delayOf timing in
  let fadeInDuration := fadeInOf timing in
  let holdDuration := holdOf timing in
  let fadeOutDuration := fadeOutOf timing in
  let totalDuration :=
    initialDelay + fadeInDuration + holdDuration + fadeOutDuration in
  if elapsed <? initialDelay then
    option_map (pair initial) (divide elapsed initialDelay)
  else if elapsed <? initialDelay + fadeInDuration then
    option_map (pair fadeIn) (divide (elapsed - initialDelay) fadeInDuration)
  else if elapsed <? initialDelay + fadeInDuration + holdDuration then
    option_map (pair hold)
      (divide (elapsed - initialDelay - fadeInDuration) holdDuration)
  else if elapsed <? totalDuration then
    option_map (pair fadeOut)
      (divide (elapsed - initialDelay - fadeInDuration - holdDuration)
         fadeOutDuration)
  else Some (complete, 1).

(** The cumulative boundary that ends a phase; [complete] has none. *)
Definition boundary (timing : AnimationTiming) (p : Phase) : option float :=
  match p with
  | initial => Some (delayOf timing)
  | fadeIn => Some (delayOf timing + fadeInOf timing)
  | hold => Some (delayOf timing + fadeInOf timing + holdOf timing)
  | fadeOut =>
      Some (delayOf timing + fadeInOf timing + holdOf timing
            + fadeOutOf timing)
  | complete => None
  end.

(** [elapsed] lies before the boundary that ends phase [p]. *)
Definition before (timing : AnimationTiming) (elapsed : float) (p : Phase)
  : bool :=
  match boundary timing p with
  | Some b => elapsed <? b
  | None => false
  end.

(** The duration a phase's progress is divided by. *)
Definition durationOf (timing : AnimationTiming) (p : Phase) : option float :=
  match p with
  | initial => Some (delayOf timing)
  | fadeIn => Some (fadeInOf timing)
  | hold => Some (holdOf timing)
  | fadeOut => Some (fadeOutOf timing)
  | complete => None
  end.

(** At most one tick is pending, and [animationRef] holds its handle: the
    state of the frame queue while a single run is in progress. *)
Definition oneTickPending (w : World) : Prop :=
  frames w = []
  \/ exists h r, frames w = [(h, r)] /\ animationRef w = Some h.

(** The browser events that follow a teardown: frames and timers. *)
Definition browserEvent (e : Event) : Prop := e = Frame \/ e = Timer.

(** Proves [Forall browserEvent] of a literal list of events. *)
Ltac browser_events :=
  repeat (apply Forall_cons;
          [first [left; reflexivity | right; reflexivity]|]);
  apply Forall_nil.

(** The whole milliseconds [0, 1, ..., n - 1] as numbers. *)
Definition milliseconds (n : nat) : list float :=
  map (fun k => of_uint63 (Uint63.of_Z (Z.of_nat k))) (seq 0 n).

(** Whether a list of numbers never decreases from one entry to the next. *)
Fixpoint nondecreasing (l : list float) : bool :=
  match l with
  | x :: (y :: _) as rest => (x <=? y) && nondecreasing rest
  | _ => true
  end.

(** ** The schedule of a run

    What is pending in the browser on behalf of the component. *)

(** Nothing is pending. *)
Definition quiescent (w : World) : Prop :=
  frames w = [] /\ timers w = [].

(** One tick is pending, under the handle [animationRef] holds. *)
Definition ticking (w : World) : Prop :=
  exists h r, frames w = [(h, r)] /\ animationRef w = Some h
              /\ timers w = [].

(** The deferred [resetEffect] of a completed run is pending. *)
Definition finishing (w : World) : Prop :=
  exists r, frames w = [] /\ timers w = [r].

(** The schedule is in one of the three shapes, and while the activity flag
    is down nothing is pending and the exposed phase is ['initial']. *)
Definition lifecycle (w : World) : Prop :=
  (quiescent w \/ ticking w \/ finishing w)
  /\ (st_isDisintegrating w = false ->
      quiescent w /\ st_animationPhase w = initial).

(** [w1] and [w] agree on the schedule, the refs, the activity flag and the
    completion count: what the parameter push of a tick leaves alone. *)
Definition sameSchedule (w1 w : World) : Prop :=
  frames w1 = frames w /\ timers w1 = timers w
  /\ nextFrame w1 = nextFrame w /\ animationRef w1 = animationRef w
  /\ completions w1 = completions w
  /\ st_isDisintegrating w1 = st_isDisintegrating w
  /\ startTimeRef w1 = startTimeRef w.

(** Whether a write sets the noise seed. *)
Definition isSeedWrite (a : AttrWrite) : bool :=
  match a with
  | SetSeed _ => true
  | _ => false
  end.

(** Whether a write sets a channel selector. *)
Definition isSelectorWrite (a : AttrWrite) : bool :=
  match a with
  | SetXChannelSelector _ | SetYChannelSelector _ => true
  | _ => false
  end.

(** The channel selectors of the attached filter. *)
Definition selectorsOf (w : World) : option (Channel.t * Channel.t) :=
  option_map (fun f => (xChannelSelector f, yChannelSelector f))
    (filterRef w).

(** From [w0] to [w] no channel selector was written: the log grew by
    other writes only, and the filter, if still attached, has the selectors
    it had. *)
Definition keepsSelectors (w0 w : World) : Prop :=
  (filterRef w = None \/ selectorsOf w = selectorsOf w0)
  /\ exists ws, writes w = ws ++ writes w0
                /\ Forall (fun a => isSelectorWrite a = false) ws.

(** Every pending tick belongs to a render with direction ['random']. *)
Definition randomTicks (w : World) : Prop :=
  Forall (fun f => direction (snd f) = Direction.random) (frames w).

(** Every render of the trace has direction ['random']. *)
Definition randomRenders (es : list Event) : Prop :=
  Forall (fun e => match e with
                   | Rendered _ _ dir _ => dir = Direction.random
                   | _ => True
                   end) es.

(** Whether an event is a render with [isActive] true after which the
    effect runs: a request to start. *)
Definition startRequest (e : Event) : bool :=
  match e with
  | Rendered active _ _ _ => active
  | _ => false
  end.

(** The number of start requests in a trace. *)
Definition startRequests (es : list Event) : nat :=
  length (filter startRequest es).

(** 1 while the activity flag is up. *)
Definition activeRuns (w : World) : nat :=
  if st_isDisintegrating w then 1 else 0.

(** ** The page: [App]

    [App] holds the props of the one [Disintegrate] it renders as state: the
    button sets [isActive], the controls set [direction], [timing] and
    [filterParams], and [handleComplete], passed as [onComplete], clears
    [isActive]. *)

(** The [filterParams] prop. *)
Record FilterParams : Set := {
  baseFrequency : float;
  numOctaves : float;
  slope : float;
  intercept : float
}.

Module App.

(** The keys of the [timing] state, as [Object.entries] lists them. *)
Inductive TimingKey : Set :=
| key_initialDelay | key_fadeInDuration | key_holdDuration
| key_fadeOutDuration.

(** The keys of the [filterParams] state. *)
Inductive FilterKey : Set :=
| key_baseFrequency | key_numOctaves | key_slope | key_intercept.

(** The state of [App], with the world of the component it renders. *)
Record State : Type := {
  isActive : bool;
  direction : Direction.t;
  timing : AnimationTiming;
  filterParams : FilterParams;
  child : World
}.

Definition withChild (w : World) (s : State) : State :=
  {| isActive := isActive s; direction := direction s; timing := timing s;
     filterParams := filterParams s; child := w |}.

(** The page after its first commit: the initial states of [useState], the
    component mounted, its effect run with [isActive] false. *)
Definition init (clock entropy : nat -> float) : State :=
  {| isActive := false;
     direction := Direction.left;
     timing := defaultTiming;
     filterParams := {| baseFrequency := 0.02; numOctaves := 1;
                        slope := 2; intercept := -0.5 |};
     child := mounted clock entropy |}.

(** The render of [Disintegrate] with the props [App] passes;
    [onComplete] is always given. *)
Definition renderChild (s : State) : Render :=
  render (isActive s) true (direction s) (timing s) (child s).

(** [setIsActive(v)]: setting the value the state already has renders
    nothing; otherwise [Disintegrate] renders with a changed [isActive] and
    its effect runs. *)
Definition setIsActive (v : bool) (s : State) : State :=
  if Bool.eqb v (isActive s) then s
  else
    let s' := {| isActive := v; direction := direction s;
                 timing := timing s; filterParams := filterParams s;
                 child := child s |} in
    withChild (isActiveEffect (renderChild s') (child s')) s'.

Definition handleComplete (s : State) : State := setIsActive false s.

(** [{...prev, [key]: value}] on the [timing] state. *)
Definition setTimingKey (key : TimingKey) (value : float)
  (prev : AnimationTiming) : AnimationTiming :=
  match key with
  | key_initialDelay =>
      {| initialDelay := Some value;
         fadeInDuration := fadeInDuration prev;
         holdDuration := holdDuration prev;
         fadeOutDuration := fadeOutDuration prev |}
  | key_fadeInDuration =>
      {| initialDelay := initialDelay prev;
         fadeInDuration := Some value;
         holdDuration := holdDuration prev;
         fadeOutDuration := fadeOutDuration prev |}
  | key_holdDuration =>
      {| initialDelay := initialDelay prev;
         fadeInDuration := fadeInDuration prev;
         holdDuration := Some value;
         fadeOutDuration := fadeOutDuration prev |}
  | key_fadeOutDuration =>
      {| initialDelay := initialDelay prev;
         fadeInDuration := fadeInDuration prev;
         holdDuration := holdDuration prev;
         fadeOutDuration := Some value |}
  end.

(** [{...prev, [key]: value}] on the [filterParams] state. *)
Definition setFilterKey (key : FilterKey) (value : float)
  (prev : FilterParams) : FilterParams :=
  match key with
  | key_baseFrequency =>
      {| baseFrequency := value; numOctaves := numOctaves prev;
         slope := slope prev; intercept := intercept prev |}
  | key_numOctaves =>
      {| baseFrequency := baseFrequency prev; numOctaves := value;
         slope := slope prev; intercept := intercept prev |}
  | key_slope =>
      {| baseFrequency := baseFrequency prev; numOctaves := numOctaves prev;
         slope := value; intercept := intercept prev |}
  | key_intercept =>
      {| baseFrequency := baseFrequency prev; numOctaves := numOctaves prev;
         slope := slope prev; intercept := value |}
  end.

(** What happens on the page.  [parsed] is the number that [parseInt] or
    [parseFloat] returns for the text of the input, NaN included. *)
Inductive Event : Set :=
| Click
| SelectDirection (value : Direction.t)
| InputTiming (key : TimingKey) (parsed : float)
| InputFilter (key : FilterKey) (parsed : float)
| Frame
| Timer.

(** One event.  A timer runs [resetEffect], whose call of [onComplete] is a
    call of [handleComplete]. *)
Definition step (s : State) (e : Event) : State :=
  match e with
  | Click => setIsActive true s
  | SelectDirection value =>
      {| isActive := isActive s; direction := value; timing := timing s;
         filterParams := filterParams s; child := child s |}
  | InputTiming key parsed =>
      {| isActive := isActive s; direction := direction s;
         timing := setTimingKey key (orElse (Some parsed) 0) (timing s);
         filterParams := filterParams s; child := child s |}
  | InputFilter key parsed =>
      {| isActive := isActive s; direction := direction s;
         timing := timing s;
         filterParams :=
           setFilterKey key (orElse (Some parsed) 0) (filterParams s);
         child := child s |}
  | Frame => withChild (runFrame (child s)) s
  | Timer =>
      let w := runTimer (child s) in
      if (completions (child s) <? completions w)%nat
      then handleComplete (withChild w s)
      else withChild w s
  end.

Definition run (s : State) (es : list Event) : State :=
  fold_left step es s.

(** The number of clicks in a trace. *)
Definition clicks (es : list Event) : nat :=
  length (filter (fun e => match e with Click => true | _ => false end) es).

(** Every field of a timing is present and is a number. *)
Definition numeric (t : AnimationTiming) : Prop :=
  exists d0 d1 d2 d3,
    t = {| initialDelay := Some d0; fadeInDuration := Some d1;
           holdDuration := Some d2; fadeOutDuration := Some d3 |}
    /\ is_nan d0 = false /\ is_nan d1 = false
    /\ is_nan d2 = false /\ is_nan d3 = false.

(** Every pending callback belongs to a render that was given
    [onComplete]. *)
Definition notifying (w : World) : Prop :=
  Forall (fun f => onComplete (snd f) = true) (frames w)
  /\ Forall (fun r => onComplete r = true) (timers w).

(** [isActive] mirrors the activity flag of the component, whose schedule
    is well formed, and the timing passed down is numeric. *)
Definition consistent (s : State) : Prop :=
  isActive s = st_isDisintegrating (child s)
  /\ lifecycle (child s)
  /\ notifying (child s)
  /\ numeric (timing s).

End App.

(** ** The phase clock over exact arithmetic

    The same functions with every number read as a rational and every
    operation exact: the arithmetic that the binary64 operations round. *)

Module Exact.
Local Open Scope Q_scope.

Record AnimationTiming : Set := {
  initialDelay : option Q;
  fadeInDuration : option Q;
  holdDuration : option Q;
  fadeOutDuration : option Q
}.

Definition orDefault (x : option Q) (d : Q) : Q :=
  match x with
  | Some v => v
  | None => d
  end.

(** [x < y] *)
Definition ltb (x y : Q) : bool := negb (Qle_bool y x).

Definition easeInCubic (t : Q) : Q := t * t * t.

Definition delayOf (timing : AnimationTiming) : Q :=
  orDefault (initialDelay timing) 200.
Definition fadeInOf (timing : AnimationTiming) : Q :=
  orDefault (fadeInDuration timing) 400.
Definition holdOf (timing : AnimationTiming) : Q :=
  orDefault (holdDuration timing) 200.
Definition fadeOutOf (timing : AnimationTiming) : Q :=
  orDefault (fadeOutDuration timing) 1200.

Definition getPhaseProgress (timing : AnimationTiming) (elapsed : Q)
  : Phase * Q :=
  let initialDelay := delayOf timing in
  let fadeInDuration := fadeInOf timing in
  let holdDuration := holdOf timing in
  let fadeOutDuration := fadeOutOf timing in
  let totalDuration :=
    initialDelay + fadeInDuration + holdDuration + fadeOutDuration in
  if ltb elapsed initialDelay then
    (initial, elapsed / initialDelay)
  else if ltb elapsed (initialDelay + fadeInDuration) then
    (fadeIn, (elapsed - initialDelay) / fadeInDuration)
  else if ltb elapsed (initialDelay + fadeInDuration + holdDuration) then
    (hold, (elapsed - initialDelay - fadeInDuration) / holdDuration)
  else if ltb elapsed totalDuration then
    (fadeOut,
     (elapsed - initialDelay - fadeInDuration - holdDuration) / fadeOutDuration)
  else (complete, 1).

Definition getEffectIntensity (phase : Phase) (progress : Q) : Q :=
  match phase with
  | initial => 0
  | fadeIn => easeInCubic progress * 0.3
  | hold => 0.3
  | fadeOut => 0.3 + (progress * 0.7)
  | complete => 0
  end.

Definition intensityAt (timing : AnimationTiming) (elapsed : Q) : Q :=
  let '(phase, progress) := getPhaseProgress timing elapsed in
  getEffectIntensity phase progress.


End Exact.

(** * Properties *)

(** ** Order and rounding facts about binary64

    Comparisons of primitive floats are specified by [SFcompare] on their
    [spec_float] images, addition by [SFadd] with round-to-nearest-even
    ([binary_round_aux]).  The facts the phase clock needs are derived from
    these specifications. *)

Section SpecFloatOrder.

Ltac cmp_cases :=
  repeat match goal with
  | H : context [Z.compare ?a ?b] |- _ => destruct (Z.compare_spec a b)
  | H : context [Pos.compare_cont Eq ?a ?b] |- _ =>
      change (Pos.compare_cont Eq a b) with (Pos.compare a b) in *;
      destruct (Pos.compare_spec a b)
  | |- context [Z.compare ?a ?b] => destruct (Z.compare_spec a b)
  | |- context [Pos.compare_cont Eq ?a ?b] =>
      change (Pos.compare_cont Eq a b) with (Pos.compare a b) in *;
      destruct (Pos.compare_spec a b)
  end.

Ltac order_cases a b c :=
  destruct a as [[]|[]| |[] ?m ?e], b as [[]|[]| |[] ?m ?e],
           c as [[]|[]| |[] ?m ?e];
  cbn [SFcompare CompOpp]; intros; try discriminate; try reflexivity;
  cmp_cases; cbn [CompOpp] in *; try discriminate; try reflexivity; try lia.

Lemma SFleb_ltb_trans a b c :
  SFleb a b = true -> SFltb b c = true -> SFltb a c = true.
Proof. unfold SFleb, SFltb. order_cases a b c. Qed.

Lemma SFltb_leb_trans a b c :
  SFltb a b = true -> SFleb b c = true -> SFltb a c = true.
Proof. unfold SFleb, SFltb. order_cases a b c. Qed.

Lemma SFleb_trans a b c :
  SFleb a b = true -> SFleb b c = true -> SFleb a c = true.
Proof. unfold SFleb. order_cases a b c. Qed.

Lemma SFltb_irrefl_of_leb a b :
  SFleb b a = true -> SFltb a b = false.
Proof.
  unfold SFleb, SFltb.
  destruct a as [[]|[]| |[] ma ea], b as [[]|[]| |[] mb eb];
    cbn [SFcompare CompOpp]; intros; try discriminate; try reflexivity;
    cmp_cases; cbn [CompOpp] in *; try discriminate; try reflexivity; try lia.
Qed.

Lemma SFleb_refl x : x <> S754_nan -> SFleb x x = true.
Proof.
  unfold SFleb.
  destruct x as [[]|[]| |[] m e]; cbn [SFcompare]; try reflexivity;
    try congruence; intros _; rewrite Z.compare_refl;
    change (Pos.compare_cont Eq m m) with (Pos.compare m m);
    rewrite Pos.compare_refl; reflexivity.
Qed.

(** A float that compares equal to zero is one of the two zeros. *)
Lemma SFeqb_zero_inv y :
  SFeqb y (S754_zero false) = true -> exists s, y = S754_zero s.
Proof.
  unfold SFeqb. destruct y as [s|[]| |[] m e]; cbn [SFcompare];
    try discriminate. intros _. now exists s.
Qed.

(** Adding a zero changes no comparison. *)
Lemma SFcompare_add_zero e x s :
  SFcompare e (SF64add x (S754_zero s)) = SFcompare e x.
Proof.
  unfold SF64add.
  destruct x as [[]|[]| |[] m ex], s; cbn [SFadd]; try reflexivity;
    destruct e as [[]|[]| |[] me ee]; reflexivity.
Qed.

End SpecFloatOrder.

Section Rounding.
Local Open Scope Z_scope.

Lemma digits2_pos_bounds m :
  2 ^ (Zpos (digits2_pos m) - 1) <= Zpos m < 2 ^ Zpos (digits2_pos m).
Proof.
  induction m as [p IH|p IH|]; cbn [digits2_pos].
  - rewrite Pos2Z.inj_succ, Z.pow_succ_r by lia.
    replace (Z.succ (Zpos (digits2_pos p)) - 1)
      with (Z.succ (Zpos (digits2_pos p) - 1)) by lia.
    rewrite Z.pow_succ_r by lia. lia.
  - rewrite Pos2Z.inj_succ, Z.pow_succ_r by lia.
    replace (Z.succ (Zpos (digits2_pos p)) - 1)
      with (Z.succ (Zpos (digits2_pos p) - 1)) by lia.
    rewrite Z.pow_succ_r by lia. lia.
  - cbn. lia.
Qed.

(** [a * 2^k <= b] forces [digits a + k <= digits b]. *)
Lemma digits2_pos_scale_le a b k :
  0 <= k -> Zpos a * 2 ^ k <= Zpos b ->
  Zpos (digits2_pos a) + k <= Zpos (digits2_pos b).
Proof.
  intros Hk Hab.
  destruct (digits2_pos_bounds a) as [La _].
  destruct (digits2_pos_bounds b) as [_ Ub].
  destruct (Z_lt_le_dec (Zpos (digits2_pos b)) (Zpos (digits2_pos a) + k))
    as [Hlt|]; [|assumption].
  exfalso.
  assert (2 ^ Zpos (digits2_pos b) <= 2 ^ (Zpos (digits2_pos a) - 1 + k))
    as Hp by (apply Z.pow_le_mono_r; lia).
  rewrite Z.pow_add_r in Hp by lia.
  assert (0 < 2 ^ k) by (apply Z.pow_pos_nonneg; lia).
  nia.
Qed.

Lemma pow2_le_of_digits p n :
  n <= Zpos (digits2_pos p) - 1 -> 0 <= n -> 1 <= Zpos p / 2 ^ n.
Proof.
  intros Hn Hn0.
  apply Z.div_le_lower_bound; [apply Z.pow_pos_nonneg; lia|].
  destruct (digits2_pos_bounds p) as [L _].
  rewrite Z.mul_1_r.
  etransitivity; [|exact L]. apply Z.pow_le_mono_r; lia.
Qed.

(** One right shift halves a non-negative mantissa. *)
Lemma shr_1_m r : 0 <= shr_m r -> shr_m (shr_1 r) = shr_m r / 2.
Proof.
  destruct r as [m r s]; cbn [shr_m shr_1]. intros Hm.
  destruct m as [|[p|p|]|p]; cbn [shr_m]; try reflexivity; try lia.
  - rewrite Pos2Z.inj_xI. apply Z.div_unique with (r := 1); lia.
  - rewrite Pos2Z.inj_xO. apply Z.div_unique with (r := 0); lia.
Qed.

Lemma iter_pos_shr_1_m n : forall r,
  0 <= shr_m r -> shr_m (SpecFloat.iter_pos shr_1 n r) = shr_m r / 2 ^ Zpos n.
Proof.
  assert (Hpow : forall k, 0 < 2 ^ Zpos k)
    by (intros; apply Z.pow_pos_nonneg; lia).
  assert (Hpp : forall k z, 0 <= z -> 0 <= z / 2 ^ Zpos k)
    by (intros; apply Z.div_pos; [lia | apply Hpow]).
  induction n as [p IH|p IH|]; intros r Hr; cbn [SpecFloat.iter_pos].
  - assert (H1 : 0 <= shr_m (shr_1 r))
      by (rewrite shr_1_m by assumption; apply Z.div_pos; lia).
    rewrite IH by (rewrite IH by assumption; auto).
    rewrite IH, shr_1_m by assumption.
    replace (Zpos p~1) with (1 + Zpos p + Zpos p) by lia.
    rewrite !Z.pow_add_r, Z.pow_1_r by lia.
    pose proof (Hpow p).
    rewrite !Z.div_div by lia. f_equal. ring.
  - rewrite IH by (rewrite IH by assumption; auto).
    rewrite IH by assumption.
    replace (Zpos p~0) with (Zpos p + Zpos p) by lia.
    rewrite Z.pow_add_r by lia.
    pose proof (Hpow p).
    rewrite Z.div_div by lia. f_equal.
  - rewrite shr_1_m by assumption. reflexivity.
Qed.

Lemma shr_m_of_loc m l : shr_m (shr_record_of_loc m l) = m.
Proof. destruct l as [|[]]; reflexivity. Qed.

(** The mantissa and the exponent that [shr_fexp] returns. *)
Lemma shr_fexp_m m e l :
  0 <= m ->
  let n := fexp prec emax (Zdigits2 m + e) - e in
  shr_m (fst (shr_fexp prec emax m e l)) = (if 0 <? n then m / 2 ^ n else m)
  /\ snd (shr_fexp prec emax m e l) = (if 0 <? n then e + n else e).
Proof.
  intros Hm n. unfold shr_fexp, shr. fold n.
  destruct n as [|p|p]; cbn [fst snd Z.ltb Z.compare];
    rewrite ?shr_m_of_loc; auto.
  rewrite iter_pos_shr_1_m by (rewrite shr_m_of_loc; assumption).
  rewrite shr_m_of_loc. auto.
Qed.

Lemma round_nearest_even_bounds m l :
  m <= round_nearest_even m l <= m + 1.
Proof.
  destruct l as [|[]]; cbn [round_nearest_even]; try lia.
  destruct (Z.even m); lia.
Qed.

(** Rounding a value that is at least the float [(m1, e1)] gives a float
    that is at least [(m1, e1)]. *)
Lemma binary_round_aux_ge m1 e1 mz ez l :
  bounded prec emax m1 e1 = true ->
  ez <= e1 -> Zpos m1 * 2 ^ (e1 - ez) <= Zpos mz ->
  SFleb (S754_finite false m1 e1)
        (binary_round_aux prec emax false (Zpos mz) ez l) = true.
Proof.
  intros Hb Hez Hval.
  unfold bounded, canonical_mantissa in Hb.
  apply andb_true_iff in Hb as [Hcan Hmax].
  apply Z.eqb_eq in Hcan. apply Z.leb_le in Hmax.
  pose proof (digits2_pos_scale_le m1 mz (e1 - ez) ltac:(lia) Hval) as Hdig.
  unfold binary_round_aux.
  pose proof (shr_fexp_m (Zpos mz) ez l ltac:(lia)) as Hs1.
  destruct (shr_fexp prec emax (Zpos mz) ez l) as [mrs' e'].
  cbn [fst snd Zdigits2] in Hs1. destruct Hs1 as [Hm' He'].
  pose proof (round_nearest_even_bounds (shr_m mrs') (loc_of_shr_record mrs'))
    as Hr.
  set (mr := round_nearest_even (shr_m mrs') (loc_of_shr_record mrs')) in *.
  (* the first shift lands on an exponent no smaller than [e1] *)
  assert (He1 : e' = fexp prec emax (Zpos (digits2_pos mz) + ez) /\ e1 <= e').
  { unfold fexp, emin, prec, emax in *.
    destruct (Z.ltb_spec 0
      (Z.max (Zpos (digits2_pos mz) + ez - 53) (3 - 1024 - 53) - ez)); lia. }
  destruct He1 as [He'eq He1].
  assert (Hm'1 : 1 <= shr_m mrs' /\ (e' = e1 -> Zpos m1 <= shr_m mrs')).
  { rewrite Hm'. unfold fexp, emin, prec, emax in *.
    destruct (Z.ltb_spec 0
      (Z.max (Zpos (digits2_pos mz) + ez - 53) (3 - 1024 - 53) - ez))
      as [Hn|Hn].
    - split.
      + apply pow2_le_of_digits; lia.
      + intros ->. apply Z.div_le_lower_bound; [apply Z.pow_pos_nonneg; lia|].
        replace (Z.max (Zpos (digits2_pos mz) + ez - 53) (3 - 1024 - 53) - ez)
          with (e1 - ez) by lia.
        lia.
    - split; [lia|]. intros ->.
      replace (e1 - ez) with 0 in Hval by lia. cbn in Hval. lia. }
  destruct Hm'1 as [Hm'1 Hm'ge].
  assert (Hmr1 : 1 <= mr) by lia.
  destruct mr as [|pr|pr] eqn:Emr; try lia.
  (* the second shift, after rounding, only raises the exponent *)
  pose proof (shr_fexp_m (Zpos pr) e' loc_Exact ltac:(lia)) as Hs2.
  destruct (shr_fexp prec emax (Zpos pr) e' loc_Exact) as [mrs'' e''].
  cbn [fst snd Zdigits2] in Hs2. destruct Hs2 as [Hm'' He''].
  assert (Hfin : 1 <= shr_m mrs'' /\ e1 <= e''
                 /\ (e'' = e1 -> Zpos m1 <= shr_m mrs'')).
  { rewrite Hm'', He''. unfold fexp, emin, prec, emax in *.
    destruct (Z.ltb_spec 0
      (Z.max (Zpos (digits2_pos pr) + e' - 53) (3 - 1024 - 53) - e'))
      as [Hn|Hn].
    - split; [apply pow2_le_of_digits; lia|]. split; lia.
    - split; [lia|]. split; [lia|]. intros He. apply Hm'ge in He. lia. }
  destruct Hfin as [Hpos [Hege Hmge]].
  destruct (shr_m mrs'') as [|p''|p''] eqn:Em''; try lia.
  destruct (Z.leb e'' (emax - prec)); [|reflexivity].
  unfold SFleb. cbn [SFcompare].
  destruct (Z.compare_spec e1 e'') as [Heq|Hlt|Hgt]; try reflexivity; try lia.
  change (Pos.compare_cont Eq m1 p'') with (Pos.compare m1 p'').
  destruct (Pos.compare_spec m1 p''); try reflexivity.
  specialize (Hmge (eq_sym Heq)). lia.
Qed.

Lemma iter_xO_pow m d : Zpos (Pos.iter xO m d) = Zpos m * 2 ^ Zpos d.
Proof.
  induction d as [|d IH] using Pos.peano_ind.
  - cbn. lia.
  - rewrite Pos.iter_succ, Pos2Z.inj_xO, IH, Pos2Z.inj_succ, Z.pow_succ_r
      by lia.
    ring.
Qed.

Lemma shl_align_spec m e e' :
  snd (shl_align m e e') <= e /\
  Zpos (fst (shl_align m e e')) = Zpos m * 2 ^ (e - snd (shl_align m e e')).
Proof.
  unfold shl_align.
  destruct (e' - e) as [|d|d] eqn:E; cbn [fst snd].
  - rewrite Z.sub_diag. cbn. lia.
  - rewrite Z.sub_diag. cbn. lia.
  - rewrite iter_xO_pow. replace (e - e') with (Zpos d) by lia. lia.
Qed.

Lemma shl_align_min m e e' : e' <= e -> snd (shl_align m e e') = e'.
Proof.
  unfold shl_align. intros H.
  destruct (e' - e) as [|d|d] eqn:E; cbn [snd]; lia.
Qed.

(** The sum of two non-negative floats is no smaller than the first. *)
Lemma SFadd_nonneg_le x y :
  valid_binary x = true -> valid_binary y = true ->
  SFleb (S754_zero false) x = true -> SFleb (S754_zero false) y = true ->
  SFleb x (SF64add x y) = true.
Proof.
  intros Vx Vy Hx Hy.
  destruct x as [sx|[]| |[] m1 e1]; try discriminate Hx;
  destruct y as [sy|[]| |[] m2 e2]; try discriminate Hy;
    try reflexivity;
    try (destruct sx; reflexivity);
    try (destruct sx, sy; reflexivity);
    try (cbn [SF64add SFadd]; apply SFleb_refl; discriminate).
  unfold SF64add, SFadd. cbn [cond_Zopp valid_binary] in *.
  set (ez := Z.min e1 e2).
  destruct (shl_align_spec m1 e1 ez) as [_ H1].
  rewrite (shl_align_min m1 e1 ez) in H1 by (subst ez; lia).
  set (M1 := fst (shl_align m1 e1 ez)) in *.
  set (M2 := fst (shl_align m2 e2 ez)) in *.
  change (Zpos M1 + Zpos M2) with (Zpos (M1 + M2)).
  cbn [binary_normalize]. unfold binary_round.
  set (E := fexp prec emax (Zpos (digits2_pos (M1 + M2)) + ez)).
  destruct (shl_align_spec (M1 + M2) ez E) as [Hle H3].
  destruct (shl_align (M1 + M2) ez E) as [mz ez2]. cbn [fst snd] in *.
  apply binary_round_aux_ge; [assumption | subst ez; lia |].
  rewrite H3, Pos2Z.inj_add, H1.
  replace (e1 - ez2) with ((e1 - ez) + (ez - ez2)) by lia.
  rewrite Z.pow_add_r by (subst ez; lia).
  assert (0 < 2 ^ (ez - ez2)) by (apply Z.pow_pos_nonneg; lia).
  assert (0 < 2 ^ (e1 - ez)) by (apply Z.pow_pos_nonneg; subst ez; lia).
  nia.
Qed.

End Rounding.

(** ** The same facts on primitive floats *)

Section FloatOrder.

Lemma leb_ltb_trans x y z :
  (x <=? y) = true -> (y <? z) = true -> (x <? z) = true.
Proof. rewrite FloatAxioms.leb_spec, !FloatAxioms.ltb_spec. apply SFleb_ltb_trans. Qed.

Lemma ltb_leb_trans x y z :
  (x <? y) = true -> (y <=? z) = true -> (x <? z) = true.
Proof. rewrite FloatAxioms.leb_spec, !FloatAxioms.ltb_spec. apply SFltb_leb_trans. Qed.

Lemma leb_trans x y z :
  (x <=? y) = true -> (y <=? z) = true -> (x <=? z) = true.
Proof. rewrite !FloatAxioms.leb_spec. apply SFleb_trans. Qed.

Lemma ltb_false_of_leb x y : (y <=? x) = true -> (x <? y) = false.
Proof. rewrite FloatAxioms.leb_spec, FloatAxioms.ltb_spec. apply SFltb_irrefl_of_leb. Qed.

(** [x <= x + y] for non-negative [x] and [y], rounding included. *)
Lemma add_nonneg_le x y :
  (0 <=? x) = true -> (0 <=? y) = true -> (x <=? x + y) = true.
Proof.
  rewrite !FloatAxioms.leb_spec, FloatAxioms.add_spec. intros Hx Hy.
  apply SFadd_nonneg_le; auto using Prim2SF_valid.
Qed.

(** A boundary is not moved by a zero-length phase. *)
Lemma ltb_add_zero e x y : (y =? 0) = true -> (e <? x + y) = (e <? x).
Proof.
  rewrite FloatAxioms.eqb_spec, !FloatAxioms.ltb_spec, FloatAxioms.add_spec. intros Hy.
  apply SFeqb_zero_inv in Hy as [s ->].
  unfold SFltb. now rewrite SFcompare_add_zero.
Qed.

(** Nothing non-negative lies before zero. *)
Lemma ltb_zero_false e d :
  (d =? 0) = true -> (0 <=? e) = true -> (e <? d) = false.
Proof.
  rewrite FloatAxioms.eqb_spec, FloatAxioms.leb_spec, FloatAxioms.ltb_spec. intros Hd He.
  apply SFeqb_zero_inv in Hd as [s ->].
  apply SFltb_irrefl_of_leb.
  change (Prim2SF 0) with (S754_zero false) in He.
  destruct (Prim2SF e) as [[]|[]| |[] m x], s; try discriminate; reflexivity.
Qed.

End FloatOrder.

(** ** PhaseClock *)

(** Every cumulative boundary of a configuration with non-negative durations
    is at most the total duration. *)
Lemma boundaries_ordered (timing : AnimationTiming) :
  (0 <=? delayOf timing) = true ->
  (0 <=? fadeInOf timing) = true ->
  (0 <=? holdOf timing) = true ->
  (0 <=? fadeOutOf timing) = true ->
  let b0 := delayOf timing in
  let b1 := b0 + fadeInOf timing in
  let b2 := b1 + holdOf timing in
  let b3 := b2 + fadeOutOf timing in
  (b0 <=? b1) = true /\ (b1 <=? b2) = true /\ (b2 <=? b3) = true.
Proof.
  intros H0 H1 H2 H3 b0 b1 b2 b3.
  assert (H01 : (b0 <=? b1) = true) by (apply add_nonneg_le; assumption).
  assert (Hb1 : (0 <=? b1) = true) by exact (leb_trans _ _ _ H0 H01).
  assert (H12 : (b1 <=? b2) = true) by (apply add_nonneg_le; assumption).
  assert (Hb2 : (0 <=? b2) = true) by exact (leb_trans _ _ _ Hb1 H12).
  assert (H23 : (b2 <=? b3) = true) by (apply add_nonneg_le; assumption).
  auto.
Qed.

(** C1: with non-negative durations, every elapsed time at or past the sum
    of the four durations is classified as [(complete, 1)]. *)
Theorem getPhaseProgress_complete (timing : AnimationTiming) (elapsed : float) :
  (0 <=? delayOf timing) = true ->
  (0 <=? fadeInOf timing) = true ->
  (0 <=? holdOf timing) = true ->
  (0 <=? fadeOutOf timing) = true ->
  (delayOf timing + fadeInOf timing + holdOf timing + fadeOutOf timing
     <=? elapsed) = true ->
  getPhaseProgress timing elapsed = (complete, 1).
Proof.
  intros H0 H1 H2 H3 Hend.
  destruct (boundaries_ordered timing H0 H1 H2 H3) as [H01 [H12 H23]].
  cbv zeta in H01, H12, H23.
  pose proof (leb_trans _ _ _ H23 Hend) as Hb2.
  pose proof (leb_trans _ _ _ H12 Hb2) as Hb1.
  pose proof (leb_trans _ _ _ H01 Hb1) as Hb0.
  unfold getPhaseProgress.
  rewrite (ltb_false_of_leb _ _ Hb0), (ltb_false_of_leb _ _ Hb1),
    (ltb_false_of_leb _ _ Hb2), (ltb_false_of_leb _ _ Hend).
  reflexivity.
Qed.

Lemma getPhaseProgress_complete_witness :
  getPhaseProgress defaultTiming 2000 = (complete, 1)
  /\ getPhaseProgress
       {| initialDelay := Some 0; fadeInDuration := None;
          holdDuration := Some 0; fadeOutDuration := Some 0x1p-1074 |}
       400.5 = (complete, 1).
Proof.
  split; apply getPhaseProgress_complete; reflexivity.
Defined.

(** C3: the intensity is exactly 0.3 where fade-in ends and where fade-out
    begins, the constant 0.3 through the hold, and exactly 1 where fade-out
    ends. *)
Theorem getEffectIntensity_seam :
  getEffectIntensity fadeIn 1 = 0.3
  /\ (forall progress, getEffectIntensity hold progress = 0.3)
  /\ getEffectIntensity fadeOut 0 = 0.3
  /\ getEffectIntensity fadeOut 1 = 1.
Proof.
  split; [|split; [|split]].
  - (* 1 * 1 * 1 * 0.3 *)
    unfold getEffectIntensity, easeInCubic. vm_compute. reflexivity.
  - intros progress. reflexivity.
  - (* 0.3 + 0 * 0.7 *)
    unfold getEffectIntensity. vm_compute. reflexivity.
  - (* 0.3 + 1 * 0.7 rounds to 1: the exact sum is 1 - 2^-54, a tie that
       goes to the even mantissa *)
    unfold getEffectIntensity. vm_compute. reflexivity.
Qed.

(** C7: for a fixed configuration the phase never moves backwards as the
    elapsed time grows, and [complete] is never left. *)
Theorem getPhaseProgress_phase_monotone (timing : AnimationTiming)
  (elapsed1 elapsed2 : float) :
  (elapsed1 <=? elapsed2) = true ->
  (phaseRank (fst (getPhaseProgress timing elapsed1))
   <= phaseRank (fst (getPhaseProgress timing elapsed2)))%nat
  /\ (fst (getPhaseProgress timing elapsed1) = complete ->
      fst (getPhaseProgress timing elapsed2) = complete).
Proof.
  intros Hle.
  assert (Hlt : forall b, (elapsed2 <? b) = true -> (elapsed1 <? b) = true)
    by (intros b; apply leb_ltb_trans; assumption).
  unfold getPhaseProgress.
  destruct (elapsed2 <? delayOf timing) eqn:E0.
  { rewrite (Hlt _ E0). cbn. split; [lia | discriminate]. }
  destruct (elapsed2 <? delayOf timing + fadeInOf timing) eqn:E1.
  { rewrite (Hlt _ E1). destruct (elapsed1 <? delayOf timing);
      cbn; split; try lia; discriminate. }
  destruct (elapsed2 <? delayOf timing + fadeInOf timing + holdOf timing)
    eqn:E2.
  { rewrite (Hlt _ E2). destruct (elapsed1 <? delayOf timing);
      [|destruct (elapsed1 <? delayOf timing + fadeInOf timing)];
      cbn; split; try lia; discriminate. }
  destruct (elapsed2 <? delayOf timing + fadeInOf timing + holdOf timing
                        + fadeOutOf timing) eqn:E3.
  { rewrite (Hlt _ E3). destruct (elapsed1 <? delayOf timing);
      [|destruct (elapsed1 <? delayOf timing + fadeInOf timing);
        [|destruct (elapsed1 <? delayOf timing + fadeInOf timing
                                + holdOf timing)]];
      cbn; split; try lia; discriminate. }
  split; [|reflexivity].
  cbn [fst phaseRank].
  destruct (fst _); cbn; lia.
Qed.

Lemma getPhaseProgress_phase_monotone_witness :
  (phaseRank (fst (getPhaseProgress defaultTiming 150))
   <= phaseRank (fst (getPhaseProgress defaultTiming 700)))%nat
  /\ (fst (getPhaseProgress defaultTiming 150) = complete ->
      fst (getPhaseProgress defaultTiming 700) = complete).
Proof.
  apply getPhaseProgress_phase_monotone. reflexivity.
Defined.

(** The phase a zero-length duration would end is never entered: its
    boundary coincides with the one before it. *)
Lemma nonzero_of_boundary e x y :
  (e <? x) = false -> (e <? x + y) = true -> (y =? 0) = false.
Proof.
  intros Hx Hxy. destruct (y =? 0) eqn:Hy; [|reflexivity].
  rewrite (ltb_add_zero e x y Hy) in Hxy. congruence.
Qed.

Lemma divide_nonzero x y : (y =? 0) = false -> divide x y = Some (x / y).
Proof. unfold divide. now intros ->. Qed.

(** C6: on a non-negative elapsed time [getPhaseProgress] never divides by
    a zero duration, whatever the durations are: the guarded reading returns
    the same pair.  The phase returned has a non-zero duration (a zero-length
    phase is skipped), and it is the first phase whose cumulative boundary
    lies beyond the elapsed time. *)
Theorem getPhaseProgress_zero_duration (timing : AnimationTiming)
  (elapsed : float) :
  (0 <=? elapsed) = true ->
  let phase := fst (getPhaseProgress timing elapsed) in
  getPhaseProgress_guarded timing elapsed
    = Some (getPhaseProgress timing elapsed)
  /\ (forall d, durationOf timing phase = Some d -> (d =? 0) = false)
  /\ (phase <> complete -> before timing elapsed phase = true)
  /\ (forall q, (phaseRank q < phaseRank phase)%nat ->
                before timing elapsed q = false).
Proof.
  intros Hpos. unfold getPhaseProgress_guarded, getPhaseProgress.
  destruct (elapsed <? delayOf timing) eqn:E0.
  { assert (Hd : (delayOf timing =? 0) = false).
    { destruct (delayOf timing =? 0) eqn:Hd; [|reflexivity].
      rewrite (ltb_zero_false _ _ Hd Hpos) in E0. discriminate. }
    cbn [fst]. rewrite (divide_nonzero _ _ Hd). cbn [option_map].
    split; [reflexivity|]. split; [|split].
    - cbn. intros d [= <-]. exact Hd.
    - intros _. unfold before. cbn. exact E0.
    - intros q Hq. cbn in Hq. lia. }
  destruct (elapsed <? delayOf timing + fadeInOf timing) eqn:E1.
  { pose proof (nonzero_of_boundary _ _ _ E0 E1) as Hd.
    cbn [fst]. rewrite (divide_nonzero _ _ Hd). cbn [option_map].
    split; [reflexivity|]. split; [|split].
    - cbn. intros d [= <-]. exact Hd.
    - intros _. unfold before. cbn. exact E1.
    - intros q Hq. destruct q; cbn in Hq; try lia; unfold before; cbn;
        assumption. }
  destruct (elapsed <? delayOf timing + fadeInOf timing + holdOf timing)
    eqn:E2.
  { pose proof (nonzero_of_boundary _ _ _ E1 E2) as Hd.
    cbn [fst]. rewrite (divide_nonzero _ _ Hd). cbn [option_map].
    split; [reflexivity|]. split; [|split].
    - cbn. intros d [= <-]. exact Hd.
    - intros _. unfold before. cbn. exact E2.
    - intros q Hq. destruct q; cbn in Hq; try lia; unfold before; cbn;
        assumption. }
  destruct (elapsed <? delayOf timing + fadeInOf timing + holdOf timing
                       + fadeOutOf timing) eqn:E3.
  { pose proof (nonzero_of_boundary _ _ _ E2 E3) as Hd.
    cbn [fst]. rewrite (divide_nonzero _ _ Hd). cbn [option_map].
    split; [reflexivity|]. split; [|split].
    - cbn. intros d [= <-]. exact Hd.
    - intros _. unfold before. cbn. exact E3.
    - intros q Hq. destruct q; cbn in Hq; try lia; unfold before; cbn;
        assumption. }
  cbn [fst]. split; [reflexivity|]. split; [|split].
  - cbn. discriminate.
  - intros H. now contradiction H.
  - intros q Hq. destruct q; cbn in Hq; try lia; unfold before; cbn;
      assumption.
Qed.

(** All four durations zero at elapsed 0, and a zero hold in the middle of
    the default configuration. *)
Lemma getPhaseProgress_zero_duration_witness :
  (let timing := {| initialDelay := Some 0; fadeInDuration := Some 0;
                    holdDuration := Some 0; fadeOutDuration := Some 0 |} in
   getPhaseProgress_guarded timing 0 = Some (complete, 1))
  /\ (let timing := {| initialDelay := Some 200; fadeInDuration := Some 400;
                       holdDuration := Some 0; fadeOutDuration := Some 1200 |} in
      getPhaseProgress_guarded timing 600 = Some (fadeOut, 0)).
Proof.
  split.
  - exact (proj1 (getPhaseProgress_zero_duration
             {| initialDelay := Some 0; fadeInDuration := Some 0;
                holdDuration := Some 0; fadeOutDuration := Some 0 |}
             0 eq_refl)).
  - exact (proj1 (getPhaseProgress_zero_duration
             {| initialDelay := Some 200; fadeInDuration := Some 400;
                holdDuration := Some 0; fadeOutDuration := Some 1200 |}
             600 eq_refl)).
Defined.

(** ** DisintegrationController *)

Lemma ticked_fields r phase w :
  let w' := ticked r phase w in
  filterRef w' = filterRef w /\ writes w' = writes w
  /\ frames w' = frames w /\ nextFrame w' = nextFrame w
  /\ timers w' = timers w /\ completions w' = completions w
  /\ animationRef w' = animationRef w /\ startTimeRef w' = startTimeRef w
  /\ st_isDisintegrating w' = st_isDisintegrating w
  /\ clockReads w' = S (clockReads w).
Proof.
  unfold ticked. destruct (negb (Phase_eqb phase (animationPhase r)));
    cbn; repeat split; reflexivity.
Qed.


(** A tick of a run without a filter: nothing is written, and the loop goes
    on or hands over to the deferred reset. *)
Lemma animate_detached r w startTime :
  filterRef w = None ->
  startTimeRef w = Some startTime -> truthy startTime = true ->
  let phase :=
    fst (getPhaseProgress (timing r) (clock w (clockReads w) - startTime)) in
  animate r w =
    if negb (Phase_eqb phase complete) then
      setAnimationRef (Some (nextFrame w))
        (snd (requestAnimationFrame r (ticked r phase w)))
    else setTimeout r (ticked r phase w).
Proof.
  intros Hf Hs Ht. unfold animate. rewrite Hs, Ht. cbn [negb].
  cbn [performance_now].
  destruct (getPhaseProgress (timing r) (clock w (clockReads w) - startTime))
    as [phase progress].
  cbn [fst]. unfold ticked. cbn [performance_now snd].
  destruct (negb (Phase_eqb phase (animationPhase r))); cbn [filterRef setAnimationPhase];
    rewrite Hf; destruct (negb (Phase_eqb phase complete)); reflexivity.
Qed.

(** A tick of a run with the filter attached. *)
Lemma animate_attached r w f startTime :
  filterRef w = Some f ->
  startTimeRef w = Some startTime -> truthy startTime = true ->
  let elapsed := clock w (clockReads w) - startTime in
  let phase := fst (getPhaseProgress (timing r) elapsed) in
  let scale := displacementScale (timing r) (intensityAt (timing r) elapsed) in
  let angles := getDirectionAngles (direction r) in
  let pushed :=
    if Direction.eqb (direction r) Direction.random then
      setAttribute (SetScale scale) (ticked r phase w)
    else
      setAttribute (SetScale scale)
        (setAttribute
           (SetYChannelSelector
              (if nonZero (yAngle angles) then Channel.G else Channel.A))
           (setAttribute
              (SetXChannelSelector
                 (if nonZero (xAngle angles) then Channel.R else Channel.A))
              (ticked r phase w))) in
  animate r w =
    if negb (Phase_eqb phase complete) then
      setAnimationRef (Some (nextFrame w))
        (snd (requestAnimationFrame r pushed))
    else setTimeout r pushed.
Proof.
  intros Hf Hs Ht. unfold animate, intensityAt. rewrite Hs, Ht. cbn [negb].
  cbn [performance_now].
  destruct (getPhaseProgress (timing r) (clock w (clockReads w) - startTime))
    as [phase progress].
  cbn [fst]. unfold ticked. cbn [performance_now snd].
  destruct (negb (Phase_eqb phase (animationPhase r)));
    cbn [filterRef setAnimationPhase]; rewrite Hf;
    destruct (Direction.eqb (direction r) Direction.random);
    destruct (negb (Phase_eqb phase complete)); reflexivity.
Qed.



(** C8: ['left'] maps to [xAngle = 0], [yAngle = 1].  A tick with a
    non-random direction and the filter attached writes the x-channel
    selector ['R'] when [xAngle] is non-zero and ['A'] otherwise, then the
    y-channel selector ['G'] when [yAngle] is non-zero and ['A'] otherwise,
    then the scale; for ['left'] the tags are ['A'] and ['G'], for ['up']
    they are ['R'] and ['A']. *)
Theorem animate_channel_selectors (r : Render) (w : World)
  (f : FilterElement) (startTime : float) :
  direction r <> Direction.random ->
  filterRef w = Some f ->
  startTimeRef w = Some startTime -> truthy startTime = true ->
  let angles := getDirectionAngles (direction r) in
  let x := if nonZero (xAngle angles) then Channel.R else Channel.A in
  let y := if nonZero (yAngle angles) then Channel.G else Channel.A in
  let w' := animate r w in
  getDirectionAngles Direction.left = {| xAngle := 0; yAngle := 1 |}
  /\ (exists s,
        writes w' = SetScale s :: SetYChannelSelector y
                      :: SetXChannelSelector x :: writes w)
  /\ option_map xChannelSelector (filterRef w') = Some x
  /\ option_map yChannelSelector (filterRef w') = Some y
  /\ (direction r = Direction.left -> x = Channel.A /\ y = Channel.G)
  /\ (direction r = Direction.up -> x = Channel.R /\ y = Channel.A).
Proof.
  intros Hdir Hf Hs Ht angles x y w'. subst w'.
  rewrite (animate_attached r w f startTime Hf Hs Ht). cbv zeta.
  set (phase := fst (getPhaseProgress (timing r) _)).
  set (s := displacementScale _ _).
  destruct (ticked_fields r phase w) as (Hfil & Hwr & _).
  assert (Hrandom : Direction.eqb (direction r) Direction.random = false)
    by (destruct (direction r); try reflexivity; now contradiction Hdir).
  rewrite Hrandom. fold angles. fold x. fold y.
  split; [reflexivity|].
  split; [|split; [|split; [|split]]].
  - exists s. destruct (negb (Phase_eqb phase complete)); cbn;
      rewrite Hwr; reflexivity.
  - destruct (negb (Phase_eqb phase complete)); cbn;
      rewrite Hfil, Hf; reflexivity.
  - destruct (negb (Phase_eqb phase complete)); cbn;
      rewrite Hfil, Hf; reflexivity.
  - intros E. subst angles x y. rewrite E. split; vm_compute; reflexivity.
  - intros E. subst angles x y. rewrite E. split; vm_compute; reflexivity.
Qed.

(** The first tick of a run to the left, 300 ms after its start. *)
Lemma animate_channel_selectors_witness :
  let w := setStartTimeRef (Some 1000)
             (mounted (fun _ => 1300) (fun _ => 0.5)) in
  let r := render true true Direction.left defaultTiming w in
  (exists s,
     writes (animate r w)
     = [SetScale s; SetYChannelSelector Channel.G;
        SetXChannelSelector Channel.A])
  /\ option_map xChannelSelector (filterRef (animate r w)) = Some Channel.A
  /\ option_map yChannelSelector (filterRef (animate r w)) = Some Channel.G.
Proof.
  intros w r.
  destruct (animate_channel_selectors r w renderedFilter 1000)
    as (_ & Hw & Hx & Hy & _); try reflexivity; try discriminate.
  exact (conj Hw (conj Hx Hy)).
Defined.

(** What no tick touches: the activity flag, the start time, the random
    source and the completion count. *)
Lemma animate_preserves r w :
  st_isDisintegrating (animate r w) = st_isDisintegrating w
  /\ startTimeRef (animate r w) = startTimeRef w
  /\ completions (animate r w) = completions w
  /\ entropyReads (animate r w) = entropyReads w.
Proof.
  destruct (startTimeRef w) as [startTime|] eqn:Hs;
    [|unfold animate; rewrite Hs; auto].
  destruct (truthy startTime) eqn:Ht;
    [|unfold animate; rewrite Hs, Ht; auto].
  destruct (filterRef w) as [f|] eqn:Hf.
  - rewrite (animate_attached r w f startTime Hf Hs Ht). cbv zeta.
    set (phase := fst (getPhaseProgress (timing r) _)).
    destruct (ticked_fields r phase w)
      as (_ & _ & _ & _ & _ & Hco & _ & Hst & Hdis & _).
    assert (He : entropyReads (ticked r phase w) = entropyReads w)
      by (unfold ticked; destruct (negb _); reflexivity).
    destruct (Direction.eqb (direction r) Direction.random);
      destruct (negb (Phase_eqb phase complete)); cbn;
      rewrite Hco, Hst, Hdis, He, Hs; auto.
  - rewrite (animate_detached r w startTime Hf Hs Ht). cbv zeta.
    set (phase := fst (getPhaseProgress (timing r) _)).
    destruct (ticked_fields r phase w)
      as (_ & _ & _ & _ & _ & Hco & _ & Hst & Hdis & _).
    assert (He : entropyReads (ticked r phase w) = entropyReads w)
      by (unfold ticked; destruct (negb _); reflexivity).
    destruct (negb (Phase_eqb phase complete)); cbn;
      rewrite Hco, Hst, Hdis, He, Hs; auto.
Qed.

Lemma setRandomSeed_isDisintegrating w :
  st_isDisintegrating (setRandomSeed w) = st_isDisintegrating w.
Proof. unfold setRandomSeed. destruct (filterRef w); reflexivity. Qed.

(** A started run has raised the activity flag. *)
Lemma startDisintegration_active r w :
  st_isDisintegrating (startDisintegration r w) = true.
Proof.
  unfold startDisintegration. cbn [performance_now].
  match goal with
  | |- st_isDisintegrating (animate ?r0 ?w0) = _ =>
      rewrite (proj1 (animate_preserves r0 w0))
  end.
  rewrite setRandomSeed_isDisintegrating. reflexivity.
Qed.

(** C5: a start requested while a run is active changes nothing at all (no
    start time, no seed, no tick, no write: the world is the same), so a
    second request right after a first leaves the one run the first began. *)
Theorem start_while_active_is_noop (w : World) :
  (st_isDisintegrating w = true ->
   forall active notify dir tm,
     step w (Rendered active notify dir tm) = w)
  /\ (forall notify dir tm active' notify' dir' tm',
        run w [Rendered true notify dir tm; Rendered active' notify' dir' tm']
        = run w [Rendered true notify dir tm]).
Proof.
  assert (Hnoop : forall w0 active notify dir tm,
            st_isDisintegrating w0 = true ->
            step w0 (Rendered active notify dir tm) = w0).
  { intros w0 active notify dir tm H. cbn [step].
    unfold isActiveEffect, render. cbn [isActive isDisintegrating].
    rewrite H. now rewrite andb_false_r. }
  split.
  - intros H active notify dir tm. now apply Hnoop.
  - intros notify dir tm active' notify' dir' tm'.
    unfold run. cbn [fold_left].
    apply Hnoop.
    destruct (st_isDisintegrating w) eqn:H.
    + rewrite (Hnoop w true notify dir tm H). exact H.
    + cbn [step]. unfold isActiveEffect, render.
      cbn [isActive isDisintegrating]. rewrite H. cbn [andb negb].
      apply startDisintegration_active.
Qed.

(** C2: the scale a tick writes is [intensity * (fadeOutDuration || 1200)].
    With [fadeOutDuration = 0] the run below is in [hold] at 700 ms, where
    the intensity is 0.3: the tick writes 0.3 * 1200 = 360, and
    [intensity * fadeOutDuration] is 0. *)
Theorem animate_scale_at_zero_fadeOut :
  let timing := {| initialDelay := Some 200; fadeInDuration := Some 400;
                   holdDuration := Some 200; fadeOutDuration := Some 0 |} in
  let clock := fun n => match n with 0%nat | 1%nat => 1000 | _ => 1700 end in
  let w := run (mounted clock (fun _ => 0.5))
               [Rendered true true Direction.random timing; Frame] in
  getPhaseProgress timing (1700 - 1000) = (hold, 0.5)
  /\ hd_error (writes w) = Some (SetScale 360)
  /\ option_map scale (filterRef w) = Some 360
  /\ intensityAt timing (1700 - 1000) * fadeOutOf timing = 0
  /\ displacementScale timing (intensityAt timing (1700 - 1000)) = 360.
Proof.
  intros timing clock w.
  split; [vm_compute; reflexivity|].
  split; [vm_compute; reflexivity|].
  split; [vm_compute; reflexivity|].
  split; vm_compute; reflexivity.
Qed.

(** C4: a run that reached [complete] has queued its deferred reset with
    [setTimeout]; the cleanup cancels the animation frame only, so after the
    teardown the timer still fires and [onComplete] is called. *)
Theorem unmount_after_complete_still_notifies :
  let clock := fun n => match n with 0%nat | 1%nat => 1000 | _ => 3000 end in
  let started := run (mounted clock (fun _ => 0.5))
                     [Rendered true true Direction.left defaultTiming] in
  let completed := run started [Frame] in
  let torn := run completed [Unmount] in
  fst (getPhaseProgress defaultTiming (3000 - 1000)) = complete
  /\ length (frames started) = 1%nat
  /\ frames completed = [] /\ length (timers completed) = 1%nat
  /\ completions completed = 0%nat
  /\ frames torn = [] /\ length (timers torn) = 1%nat
  /\ completions torn = 0%nat
  /\ completions (run torn [Timer]) = 1%nat.
Proof.
  intros clock started completed torn.
  repeat (split; [vm_compute; reflexivity|]).
  vm_compute. reflexivity.
Qed.

(** ** The phase clock over exact arithmetic *)

Section ExactClock.
Local Open Scope Q_scope.







End ExactClock.


Section ExactProfile.
Local Open Scope Q_scope.



End ExactProfile.

(** ** Further properties of the controller *)

(** [||] and the destructuring default agree on a [fadeOutDuration] that is
    missing or truthy. *)
Lemma displacementScale_truthy timing intensity :
  (forall d, fadeOutDuration timing = Some d -> truthy d = true) ->
  displacementScale timing intensity = intensity * fadeOutOf timing.
Proof.
  unfold displacementScale, fadeOutOf, orElse, orDefault. intros H.
  destruct (fadeOutDuration timing) as [d|]; [|reflexivity].
  now rewrite (H d eq_refl).
Qed.

(** X1: when [timing.fadeOutDuration] is missing or truthy (neither 0 nor
    NaN), a tick with the filter attached writes, as its last attribute, the
    scale [intensity * fadeOutDuration], with 1200 for a missing duration. *)
Theorem animate_scale (r : Render) (w : World) (f : FilterElement)
  (startTime : float) :
  filterRef w = Some f ->
  startTimeRef w = Some startTime -> truthy startTime = true ->
  (forall d, fadeOutDuration (timing r) = Some d -> truthy d = true) ->
  let elapsed := clock w (clockReads w) - startTime in
  let scale' := intensityAt (timing r) elapsed * fadeOutOf (timing r) in
  hd_error (writes (animate r w)) = Some (SetScale scale')
  /\ option_map scale (filterRef (animate r w)) = Some scale'.
Proof.
  intros Hf Hs Ht Hd elapsed scale'.
  rewrite (animate_attached r w f startTime Hf Hs Ht). cbv zeta.
  fold elapsed. rewrite (displacementScale_truthy _ _ Hd). fold scale'.
  set (phase := fst (getPhaseProgress (timing r) elapsed)).
  destruct (ticked_fields r phase w) as (Hfil & _).
  destruct (Direction.eqb (direction r) Direction.random);
    destruct (negb (Phase_eqb phase complete)); cbn;
    rewrite Hfil, Hf; split; reflexivity.
Qed.

Lemma animate_scale_witness :
  let w := setStartTimeRef (Some 1000)
             (mounted (fun _ => 2100) (fun _ => 0.5)) in
  let r := render true true Direction.random defaultTiming w in
  hd_error (writes (animate r w)) = Some (SetScale 570)
  /\ option_map scale (filterRef (animate r w)) = Some 570.
Proof.
  intros w r.
  apply (animate_scale r w renderedFilter 1000); try reflexivity.
  intros d [= <-]. reflexivity.
Defined.

(** X2: the scenario of the default configuration: phase, progress and
    intensity at 0, 200, 600, 800 and 2000 ms. *)
Theorem default_timing_scenario :
  map (getPhaseProgress defaultTiming) [0; 200; 600; 800; 2000]
  = [(initial, 0); (fadeIn, 0); (hold, 0); (fadeOut, 0); (complete, 1)]
  /\ map (intensityAt defaultTiming) [0; 200; 600; 800; 2000]
     = [0; 0; 0.3; 0.3; 0].
Proof. split; vm_compute; reflexivity. Qed.

(** X3: on binary64, for the default configuration sampled at every whole
    millisecond of the run, the intensity never decreases and stays within
    [0, 1]. *)
Theorem default_timing_profile :
  let samples := map (intensityAt defaultTiming) (milliseconds 2000) in
  length samples = 2000%nat
  /\ nondecreasing samples = true
  /\ forallb (fun i => (0 <=? i) && (i <=? 1)) samples = true.
Proof.
  intros samples.
  split; [apply length_map|].
  split; vm_compute; reflexivity.
Qed.

(** X4: [resetEffect] returns the filter to scale 0 and the state cells to
    idle, and calls [onComplete] once when it is given. *)
Theorem resetEffect_idle (r : Render) (w : World) :
  let w' := resetEffect r w in
  option_map scale (filterRef w') = option_map (fun _ => 0) (filterRef w)
  /\ st_isDisintegrating w' = false
  /\ st_animationPhase w' = initial
  /\ completions w'
     = (if onComplete r then S (completions w) else completions w)
  /\ frames w' = frames w /\ timers w' = timers w.
Proof.
  unfold resetEffect.
  destruct (filterRef w) as [f|] eqn:Hf; destruct (onComplete r); cbn;
    rewrite ?Hf; repeat split; reflexivity.
Qed.

(** *** Teardown before the run completes *)

Lemma setFrames_same w : setFrames (frames w) w = w.
Proof. destruct w; reflexivity. Qed.

Lemma runFrame_idle w : frames w = [] -> runFrame w = w.
Proof.
  intros H. unfold runFrame. rewrite H. cbn [fold_left].
  rewrite <- H. apply setFrames_same.
Qed.

Lemma runTimer_idle w : timers w = [] -> runTimer w = w.
Proof. intros H. unfold runTimer. now rewrite H. Qed.








Lemma unmount_clears w :
  oneTickPending w ->
  frames (unmount w) = [] /\ timers (unmount w) = timers w
  /\ completions (unmount w) = completions w
  /\ writes (unmount w) = writes w.
Proof.
  unfold unmount, cleanup. cbn [animationRef setFilterRef].
  intros [H|(h & r & H & Href)].
  - destruct (animationRef w); cbn; rewrite ?H; auto.
  - rewrite Href. cbn. rewrite H. cbn. rewrite Pos.eqb_refl. auto.
Qed.

(** X6: a teardown while no deferred reset is queued is a hard stop: the
    pending tick is cancelled, and whatever frames and timers the browser
    runs afterwards change nothing; [onComplete] is never called and no
    attribute is written. *)
Theorem unmount_before_complete_is_final (w : World) (es : list Event) :
  oneTickPending w -> timers w = [] -> Forall browserEvent es ->
  run (unmount w) es = unmount w
  /\ frames (unmount w) = []
  /\ completions (run (unmount w) es) = completions w
  /\ writes (run (unmount w) es) = writes w.
Proof.
  intros Hone Htimers Hes.
  destruct (unmount_clears w Hone) as (Hf & Ht & Hc & Hw).
  rewrite Htimers in Ht.
  assert (Hrun : run (unmount w) es = unmount w).
  { unfold run. induction Hes as [|e es [-> | ->] _ IH]; cbn [fold_left step].
    - reflexivity.
    - rewrite (runFrame_idle _ Hf). exact IH.
    - rewrite (runTimer_idle _ Ht). exact IH. }
  rewrite Hrun. auto.
Qed.

(** A run to the left, torn down in its fade-in after two frames. *)
Lemma unmount_before_complete_is_final_witness :
  let clock := fun n => match n with
                        | 0%nat | 1%nat => 1000
                        | 2%nat => 1100
                        | _ => 1300
                        end in
  let w := run (mounted clock (fun _ => 0.5))
               [Rendered true true Direction.left defaultTiming;
                Frame; Frame] in
  fst (getPhaseProgress defaultTiming (1300 - 1000)) = fadeIn
  /\ length (frames w) = 1%nat
  /\ run (unmount w) [Frame; Timer; Frame] = unmount w
  /\ completions (run (unmount w) [Frame; Timer; Frame]) = 0%nat.
Proof.
  intros clock w.
  split; [vm_compute; reflexivity|].
  split; [vm_compute; reflexivity|].
  destruct (unmount_before_complete_is_final w [Frame; Timer; Frame])
    as (Hrun & _ & Hc & _).
  - right. eexists _, _. split; vm_compute; reflexivity.
  - vm_compute. reflexivity.
  - browser_events.
  - split; [exact Hrun | exact Hc].
Defined.

(** ** The life of a run *)

Lemma sameSchedule_setAttribute a w1 w :
  sameSchedule w1 w -> sameSchedule (setAttribute a w1) w.
Proof. intros H. exact H. Qed.

Lemma sameSchedule_ticked r phase w : sameSchedule (ticked r phase w) w.
Proof.
  destruct (ticked_fields r phase w)
    as (_ & _ & Hfr & Hnx & Htm & Hco & Href & Hst & Hdis & _).
  repeat split; assumption.
Qed.

(** A tick that runs: after the push it either re-queues itself or queues
    the deferred reset, by the phase it computed. *)
Lemma animate_running r w startTime :
  startTimeRef w = Some startTime -> truthy startTime = true ->
  let phase :=
    fst (getPhaseProgress (timing r) (clock w (clockReads w) - startTime)) in
  exists w1,
    sameSchedule w1 w
    /\ (filterRef w1 = None <-> filterRef w = None)
    /\ animate r w =
       if negb (Phase_eqb phase complete) then
         setAnimationRef (Some (nextFrame w))
           (snd (requestAnimationFrame r w1))
       else setTimeout r w1.
Proof.
  intros Hs Ht phase.
  destruct (filterRef w) as [f|] eqn:Hf.
  - rewrite (animate_attached r w f startTime Hf Hs Ht). cbv zeta.
    fold phase.
    destruct (ticked_fields r phase w) as (Hfil & _).
    destruct (Direction.eqb (direction r) Direction.random);
      eexists; (split; [|split; [|reflexivity]]);
      try (repeat apply sameSchedule_setAttribute; apply sameSchedule_ticked);
      cbn; rewrite Hfil, Hf; cbn; split; discriminate.
  - rewrite (animate_detached r w startTime Hf Hs Ht). cbv zeta.
    fold phase.
    destruct (ticked_fields r phase w) as (Hfil & _).
    eexists. split; [apply sameSchedule_ticked|]. split; [|reflexivity].
    rewrite Hfil, Hf. tauto.
Qed.

(** A tick without a usable start time does nothing. *)
Lemma animate_idle r w : truthyOpt (startTimeRef w) = false -> animate r w = w.
Proof.
  unfold animate, truthyOpt.
  destruct (startTimeRef w) as [t|]; [|reflexivity].
  now intros ->.
Qed.

(** The three outcomes of a tick on the schedule. *)
Lemma animate_schedule r w :
  animate r w = w
  \/ (frames (animate r w) = frames w ++ [(nextFrame w, r)]
      /\ animationRef (animate r w) = Some (nextFrame w)
      /\ timers (animate r w) = timers w)
  \/ (frames (animate r w) = frames w
      /\ animationRef (animate r w) = animationRef w
      /\ timers (animate r w) = timers w ++ [r]).
Proof.
  destruct (truthyOpt (startTimeRef w)) eqn:Ht;
    [|left; now apply animate_idle].
  unfold truthyOpt in Ht.
  destruct (startTimeRef w) as [startTime|] eqn:Hs; [|discriminate].
  destruct (animate_running r w startTime Hs Ht)
    as (w1 & (Hfr & Htm & Hnx & Href & _) & _ & ->).
  right.
  destruct (negb (Phase_eqb _ complete)); cbn;
    rewrite ?Hfr, ?Htm, ?Href, ?Hnx;
    [left | right]; auto.
Qed.

Lemma lifecycle_animate r w :
  quiescent w -> st_isDisintegrating w = true -> lifecycle (animate r w).
Proof.
  intros [Hf Ht] Hflag.
  split; [|destruct (animate_preserves r w) as [-> _]; congruence].
  destruct (animate_schedule r w) as [-> | [(H1 & H2 & H3) | (H1 & H2 & H3)]].
  - left. split; assumption.
  - right; left. exists (nextFrame w), r. rewrite H1, H2, H3, Hf. auto.
  - right; right. exists r. rewrite H1, H3, Hf, Ht. auto.
Qed.

Lemma lifecycle_runFrame w : lifecycle w -> lifecycle (runFrame w).
Proof.
  intros [Hshape Hidle].
  destruct Hshape as [[Hf Ht] | [(h & r & Hf & Href & Ht) | (r & Hf & Ht)]].
  - rewrite (runFrame_idle w Hf). split; [left; split|]; assumption.
  - unfold runFrame. rewrite Hf. cbn [fold_left snd].
    apply lifecycle_animate; [split; [reflexivity | exact Ht]|].
    cbn. destruct (st_isDisintegrating w) eqn:E; [reflexivity|].
    destruct (Hidle eq_refl) as [[Hf' _] _]. congruence.
  - rewrite (runFrame_idle w Hf).
    split; [right; right; exists r; auto | assumption].
Qed.

Lemma lifecycle_runTimer w : lifecycle w -> lifecycle (runTimer w).
Proof.
  intros [Hshape Hidle]. unfold runTimer.
  destruct Hshape as [[Hf Ht] | [(h & r & Hf & Href & Ht) | (r & Hf & Ht)]];
    rewrite Ht.
  - split; [left; split|]; assumption.
  - split; [right; left; exists h, r; auto | assumption].
  - assert (Hq : quiescent (resetEffect r (setTimers [] w))
                 /\ st_isDisintegrating (resetEffect r (setTimers [] w)) = false
                 /\ st_animationPhase (resetEffect r (setTimers [] w)) = initial).
    { unfold resetEffect, quiescent.
      destruct (filterRef (setTimers [] w)); destruct (onComplete r); cbn;
        rewrite Hf; auto. }
    destruct Hq as (Hq & _ & Hph). split; [left; exact Hq | auto].
Qed.

Lemma unmount_fields w :
  st_isDisintegrating (unmount w) = st_isDisintegrating w
  /\ st_animationPhase (unmount w) = st_animationPhase w
  /\ timers (unmount w) = timers w
  /\ completions (unmount w) = completions w
  /\ (frames w = [] -> frames (unmount w) = []).
Proof.
  unfold unmount, cleanup. cbn [animationRef setFilterRef].
  destruct (animationRef w); cbn; repeat split; try reflexivity;
    intros ->; reflexivity.
Qed.

Lemma lifecycle_unmount w : lifecycle w -> lifecycle (unmount w).
Proof.
  intros [Hshape Hidle].
  destruct (unmount_fields w) as (Hflag & Hph & Htm & _ & Hfr).
  assert (Hidle' : st_isDisintegrating (unmount w) = false ->
                   quiescent (unmount w)
                   /\ st_animationPhase (unmount w) = initial).
  { rewrite Hflag, Hph. intros E. destruct (Hidle E) as [[Hf Ht] Hp].
    split; [split|]; [apply Hfr, Hf | congruence | exact Hp]. }
  split; [|exact Hidle'].
  destruct Hshape as [[Hf Ht] | [Htick | (r & Hf & Ht)]].
  - left. split; [apply Hfr, Hf | congruence].
  - left. destruct (unmount_clears w) as (Hf' & Ht' & _).
    + destruct Htick as (h & r & Hf & Href & _). right. exists h, r. auto.
    + destruct Htick as (h & r & _ & _ & Ht). split; congruence.
  - right; right. exists r. split; [apply Hfr, Hf | congruence].
Qed.

Lemma setRandomSeed_schedule w : sameSchedule (setRandomSeed w) w.
Proof.
  unfold setRandomSeed, sameSchedule.
  destruct (filterRef w); cbn; repeat split; reflexivity.
Qed.

Lemma startDisintegration_armed r w :
  startDisintegration r w = animate r (armed w).
Proof. reflexivity. Qed.

Lemma armed_fields w :
  frames (armed w) = frames w /\ timers (armed w) = timers w
  /\ completions (armed w) = completions w
  /\ st_isDisintegrating (armed w) = true
  /\ startTimeRef (armed w) = Some (clock w (clockReads w))
  /\ clock (armed w) = clock w
  /\ clockReads (armed w) = S (clockReads w).
Proof.
  unfold armed, setRandomSeed. cbn [performance_now].
  destruct (filterRef _); cbn; repeat split; reflexivity.
Qed.

Lemma lifecycle_isActiveEffect r w :
  isDisintegrating r = st_isDisintegrating w ->
  lifecycle w -> lifecycle (isActiveEffect r w).
Proof.
  intros Hr Hl. unfold isActiveEffect.
  destruct (isActive r && negb (isDisintegrating r)) eqn:E; [|exact Hl].
  apply andb_true_iff in E as [_ E]. apply negb_true_iff in E.
  rewrite Hr in E. destruct Hl as [_ Hidle].
  destruct (Hidle E) as [[Hf Ht] _].
  rewrite startDisintegration_armed.
  destruct (armed_fields w) as (H1 & H2 & _ & H3 & _).
  apply lifecycle_animate; [split; congruence | exact H3].
Qed.

Lemma lifecycle_step w e : lifecycle w -> lifecycle (step w e).
Proof.
  destruct e as [active notify dir tm| | |]; cbn [step].
  - apply lifecycle_isActiveEffect. reflexivity.
  - apply lifecycle_runFrame.
  - apply lifecycle_runTimer.
  - apply lifecycle_unmount.
Qed.

Lemma lifecycle_mounted clock entropy : lifecycle (mounted clock entropy).
Proof. split; [left; split; reflexivity | intros _; repeat split]. Qed.

Lemma lifecycle_run es : forall w, lifecycle w -> lifecycle (run w es).
Proof.
  unfold run. induction es as [|e es IH]; intros w H; cbn [fold_left].
  - exact H.
  - apply IH, lifecycle_step, H.
Qed.

(** No frame changes the activity flag or the completion count. *)
Lemma runFrame_preserves w :
  st_isDisintegrating (runFrame w) = st_isDisintegrating w
  /\ completions (runFrame w) = completions w.
Proof.
  unfold runFrame.
  change (st_isDisintegrating w) with (st_isDisintegrating (setFrames [] w)).
  change (completions w) with (completions (setFrames [] w)).
  generalize (setFrames [] w). generalize (frames w).
  induction l as [|f l IH]; intros w0; cbn [fold_left]; [auto|].
  destruct (IH (animate (snd f) w0)) as [-> ->].
  destruct (animate_preserves (snd f) w0) as (-> & _ & -> & _). auto.
Qed.

Lemma resetEffect_fields r w :
  st_isDisintegrating (resetEffect r w) = false
  /\ st_animationPhase (resetEffect r w) = initial
  /\ frames (resetEffect r w) = frames w
  /\ timers (resetEffect r w) = timers w
  /\ completions (resetEffect r w)
     = (if onComplete r then S (completions w) else completions w)
  /\ option_map scale (filterRef (resetEffect r w))
     = option_map (fun _ => 0) (filterRef w).
Proof.
  unfold resetEffect.
  destruct (filterRef w) as [f|] eqn:Hf; destruct (onComplete r); cbn;
    rewrite ?Hf; repeat split; reflexivity.
Qed.

Lemma startDisintegration_completions r w :
  completions (startDisintegration r w) = completions w.
Proof.
  rewrite startDisintegration_armed.
  destruct (animate_preserves r (armed w)) as (_ & _ & -> & _).
  now destruct (armed_fields w) as (_ & _ & -> & _).
Qed.

(** One event: completions and the active run together grow by at most the
    start the event requests. *)
Lemma step_accounting w e :
  lifecycle w ->
  (completions (step w e) + activeRuns (step w e)
   <= completions w + activeRuns w + (if startRequest e then 1 else 0))%nat.
Proof.
  intros [Hshape Hidle]. unfold activeRuns.
  destruct e as [active notify dir tm| | |]; cbn [step startRequest].
  - unfold isActiveEffect, render. cbn [isActive isDisintegrating].
    destruct (st_isDisintegrating w) eqn:E.
    + rewrite andb_false_r, E. destruct active; lia.
    + destruct active; cbn [andb negb]; [|rewrite E; lia].
      rewrite startDisintegration_active, startDisintegration_completions.
      lia.
  - destruct (runFrame_preserves w) as [-> ->]. lia.
  - unfold runTimer. destruct (timers w) as [|cb rest] eqn:Ht.
    + lia.
    + destruct (resetEffect_fields cb (setTimers rest w))
        as (-> & _ & _ & _ & -> & _).
      destruct (st_isDisintegrating w) eqn:E.
      * cbn. destruct (onComplete cb); lia.
      * destruct (Hidle eq_refl) as [[_ Ht'] _]. congruence.
  - destruct (unmount_fields w) as (-> & _ & _ & -> & _). lia.
Qed.

Lemma run_accounting es : forall w,
  lifecycle w ->
  (completions (run w es) + activeRuns (run w es)
   <= completions w + activeRuns w + startRequests es)%nat.
Proof.
  unfold run, startRequests.
  induction es as [|e es IH]; intros w Hl; cbn [fold_left filter].
  - cbn. lia.
  - pose proof (step_accounting w e Hl) as H1.
    pose proof (IH (step w e) (lifecycle_step w e Hl)) as H2.
    destruct (startRequest e); cbn [length]; lia.
Qed.

(** X7: whatever renders, frames, timers and teardowns follow the mount,
    the schedule keeps one of its three shapes (nothing pending, one tick
    pending, or the deferred reset pending), and [onComplete] has been called
    at most once per start request. *)
Theorem completions_bounded_by_starts (clock entropy : nat -> float)
  (es : list Event) :
  let w := run (mounted clock entropy) es in
  lifecycle w /\ (completions w <= startRequests es)%nat.
Proof.
  intros w. subst w. split.
  - apply lifecycle_run, lifecycle_mounted.
  - pose proof (run_accounting es (mounted clock entropy)
                  (lifecycle_mounted clock entropy)) as H.
    cbn [completions mounted activeRuns st_isDisintegrating] in H.
    unfold activeRuns in H. cbn in H. lia.
Qed.

(** A tick writes at most three attributes, none of them the seed, and
    leaves the seed of the filter as it is. *)
Lemma animate_seed r w :
  option_map seed (filterRef (animate r w)) = option_map seed (filterRef w)
  /\ exists ws, writes (animate r w) = ws ++ writes w
                /\ Forall (fun a => isSeedWrite a = false) ws.
Proof.
  destruct (truthyOpt (startTimeRef w)) eqn:Ht.
  2:{ rewrite (animate_idle r w Ht). split; [reflexivity|].
      exists []. split; [reflexivity | constructor]. }
  unfold truthyOpt in Ht.
  destruct (startTimeRef w) as [startTime|] eqn:Hs; [|discriminate].
  destruct (filterRef w) as [f|] eqn:Hf.
  - rewrite (animate_attached r w f startTime Hf Hs Ht). cbv zeta.
    set (phase := fst (getPhaseProgress (timing r) _)).
    set (s := displacementScale _ _). set (x := SetXChannelSelector _).
    set (y := SetYChannelSelector _).
    destruct (ticked_fields r phase w) as (Hfil & Hwr & _).
    destruct (Direction.eqb (direction r) Direction.random);
      destruct (negb (Phase_eqb phase complete)); cbn;
      rewrite Hfil, Hf, Hwr; (split; [reflexivity|]);
      first [ exists [SetScale s]; split; [reflexivity|];
              repeat constructor
            | exists [SetScale s; y; x]; split; [reflexivity|];
              repeat constructor ].
  - rewrite (animate_detached r w startTime Hf Hs Ht). cbv zeta.
    set (phase := fst (getPhaseProgress (timing r) _)).
    destruct (ticked_fields r phase w) as (Hfil & Hwr & _).
    destruct (negb (Phase_eqb phase complete)); cbn;
      rewrite Hfil, Hf, Hwr; (split; [reflexivity|]);
      (exists []; split; [reflexivity | constructor]).
Qed.

(** X8: a run whose pending tick finds the elapsed time in [complete]
    ends with the next timer: that tick queues the deferred reset and no
    further frame, and the reset calls [onComplete] once (when it is given),
    lowers the activity flag, exposes ['initial'], leaves the scale at 0 and
    nothing pending. *)
Theorem run_completes (w : World) (h : positive) (r : Render)
  (startTime : float) :
  frames w = [(h, r)] -> timers w = [] ->
  startTimeRef w = Some startTime -> truthy startTime = true ->
  fst (getPhaseProgress (timing r) (clock w (clockReads w) - startTime))
    = complete ->
  let w' := run w [Frame; Timer] in
  frames (run w [Frame]) = [] /\ timers (run w [Frame]) = [r]
  /\ completions (run w [Frame]) = completions w
  /\ completions w'
     = (if onComplete r then S (completions w) else completions w)
  /\ quiescent w'
  /\ st_isDisintegrating w' = false
  /\ st_animationPhase w' = initial
  /\ option_map scale (filterRef w') = option_map (fun _ => 0) (filterRef w).
Proof.
  intros Hf Ht Hs Htr Hphase w'. subst w'.
  unfold run. cbn [fold_left step]. unfold runFrame.
  rewrite Hf. cbn [fold_left snd].
  destruct (animate_running r (setFrames [] w) startTime Hs Htr)
    as (w1 & (Hfr & Htm & _ & _ & Hco & _) & Hfil & Han).
  cbn [clock clockReads setFrames] in Han. rewrite Hphase in Han.
  cbn [Phase_eqb negb] in Han. rewrite Han.
  cbn [frames timers setFrames] in Hfr, Htm. cbn [completions setFrames] in Hco.
  assert (Htimers : timers (setTimeout r w1) = [r])
    by (cbn; rewrite Htm, Ht; reflexivity).
  split; [cbn; exact Hfr|]. split; [exact Htimers|].
  split; [cbn; exact Hco|].
  unfold runTimer. rewrite Htimers.
  destruct (resetEffect_fields r (setTimers [] (setTimeout r w1)))
    as (Hflag & Hph & Hfr' & Htm' & Hco' & Hsc).
  split; [rewrite Hco'; cbn; rewrite Hco; reflexivity|].
  split; [split; [rewrite Hfr'; cbn; exact Hfr | rewrite Htm'; reflexivity]|].
  split; [exact Hflag|]. split; [exact Hph|].
  rewrite Hsc. cbn [filterRef setTimers setTimeout].
  cbn [filterRef setFrames] in Hfil.
  destruct (filterRef w1), (filterRef w); cbn; try reflexivity;
    destruct Hfil as [H1 H2];
    [specialize (H2 eq_refl) | specialize (H1 eq_refl)]; discriminate.
Qed.

(** The default run, started at 1000 and ticking next at 3000. *)
Lemma run_completes_witness :
  let clock := fun n => match n with 0%nat | 1%nat => 1000 | _ => 3000 end in
  let w := run (mounted clock (fun _ => 0.5))
               [Rendered true true Direction.up defaultTiming] in
  completions (run w [Frame; Timer]) = 1%nat
  /\ quiescent (run w [Frame; Timer])
  /\ st_isDisintegrating (run w [Frame; Timer]) = false
  /\ option_map scale (filterRef (run w [Frame; Timer])) = Some 0.
Proof.
  intros clock w.
  destruct (run_completes w 1%positive
              (render true true Direction.up defaultTiming
                 (mounted clock (fun _ => 0.5))) 1000)
    as (_ & _ & _ & Hc & Hq & Hflag & _ & Hsc);
    try (vm_compute; reflexivity).
  split; [exact Hc|]. split; [exact Hq|].
  split; [exact Hflag | exact Hsc].
Defined.

Lemma animate_no_filter r w :
  filterRef w = None ->
  filterRef (animate r w) = None /\ writes (animate r w) = writes w.
Proof.
  intros Hf.
  destruct (truthyOpt (startTimeRef w)) eqn:Ht;
    [|rewrite (animate_idle r w Ht); auto].
  unfold truthyOpt in Ht.
  destruct (startTimeRef w) as [startTime|] eqn:Hs; [|discriminate].
  rewrite (animate_detached r w startTime Hf Hs Ht). cbv zeta.
  set (phase := fst (getPhaseProgress (timing r) _)).
  destruct (ticked_fields r phase w) as (Hfil & Hwr & _).
  destruct (negb (Phase_eqb phase complete)); cbn; rewrite Hfil, Hwr; auto.
Qed.

Lemma armed_filter w :
  match filterRef w with
  | Some f =>
      let seed' := Math_floor (entropy w (entropyReads w) * 1000) in
      filterRef (armed w) = Some (applyWrite (SetSeed seed') f)
      /\ entropyReads (armed w) = S (entropyReads w)
      /\ writes (armed w) = SetSeed seed' :: writes w
  | None =>
      filterRef (armed w) = None
      /\ entropyReads (armed w) = entropyReads w
      /\ writes (armed w) = writes w
  end.
Proof.
  unfold armed, setRandomSeed. cbn [performance_now].
  cbn [filterRef setStartTimeRef setAnimationPhase setIsDisintegrating].
  destruct (filterRef w) as [f|] eqn:Hf; cbn; rewrite ?Hf; auto.
Qed.

(** X9: a start request that finds the activity flag down begins a run,
    whatever the refs still hold from an earlier one: the flag goes up, the
    start time is the next clock reading, [onComplete] is not called, and
    with the filter attached the seed is [Math.floor(Math.random() * 1000)]
    of the next random draw, written once and before every other write of
    the run; without a filter no random number is drawn and nothing is
    written. *)
Theorem start_arms_the_run (w : World) (notify : bool) (dir : Direction.t)
  (tm : AnimationTiming) :
  st_isDisintegrating w = false ->
  let w' := step w (Rendered true notify dir tm) in
  st_isDisintegrating w' = true
  /\ startTimeRef w' = Some (clock w (clockReads w))
  /\ completions w' = completions w
  /\ match filterRef w with
     | Some _ =>
         let seed' := Math_floor (entropy w (entropyReads w) * 1000) in
         option_map seed (filterRef w') = Some (Some seed')
         /\ entropyReads w' = S (entropyReads w)
         /\ exists ws, writes w' = ws ++ SetSeed seed' :: writes w
                       /\ Forall (fun a => isSeedWrite a = false) ws
     | None =>
         filterRef w' = None
         /\ entropyReads w' = entropyReads w
         /\ writes w' = writes w
     end.
Proof.
  intros Hflag w'. subst w'. cbn [step].
  unfold isActiveEffect, render. cbn [isActive isDisintegrating].
  rewrite Hflag. cbn [andb negb].
  rewrite startDisintegration_armed.
  set (r := {| isActive := true; onComplete := notify; direction := dir;
               timing := tm; isDisintegrating := false;
               animationPhase := st_animationPhase w |}).
  destruct (animate_preserves r (armed w)) as (H1 & H2 & H3 & H4).
  destruct (armed_fields w) as (_ & _ & Hco & Hfl & Hst & _).
  rewrite H1, H2, H3, H4, Hfl, Hst, Hco.
  split; [reflexivity|]. split; [reflexivity|]. split; [reflexivity|].
  pose proof (armed_filter w) as Ha.
  destruct (filterRef w) as [f|].
  - cbv zeta in Ha. destruct Ha as (Hf & He & Hw).
    destruct (animate_seed r (armed w)) as (Hseed & ws & Hws & Hall).
    cbv zeta. rewrite Hseed, Hf, He, Hws, Hw.
    split; [reflexivity|]. split; [reflexivity|]. exists ws. auto.
  - destruct Ha as (Hf & He & Hw).
    destruct (animate_no_filter r (armed w) Hf) as [Hf' Hw'].
    rewrite Hf', Hw', He, Hw. auto.
Qed.

(** A second run, after the first has completed and been reset. *)
Lemma start_arms_the_run_witness :
  let clock := fun n => match n with
                        | 0%nat | 1%nat => 1000
                        | 2%nat => 3000
                        | _ => 5000
                        end in
  let entropy := fun n => match n with 0%nat => 0.25 | _ => 0.75 end in
  let w := run (mounted clock entropy)
               [Rendered true true Direction.left defaultTiming;
                Frame; Timer] in
  let w' := step w (Rendered true true Direction.left defaultTiming) in
  startTimeRef w = Some 1000
  /\ st_isDisintegrating w' = true
  /\ startTimeRef w' = Some 5000
  /\ option_map seed (filterRef w') = Some (Some 750).
Proof.
  intros clock entropy w w'.
  destruct (start_arms_the_run w true Direction.left defaultTiming eq_refl)
    as (Hflag & Hstart & _ & Hseed & _).
  split; [vm_compute; reflexivity|].
  split; [exact Hflag|]. split; [exact Hstart | exact Hseed].
Defined.

Lemma step_inert w e :
  st_isDisintegrating w = true -> quiescent w ->
  st_isDisintegrating (step w e) = true /\ quiescent (step w e)
  /\ completions (step w e) = completions w
  /\ writes (step w e) = writes w
  /\ startTimeRef (step w e) = startTimeRef w.
Proof.
  intros Hflag [Hf Ht].
  destruct e as [active notify dir tm| | |]; cbn [step].
  - unfold isActiveEffect, render. cbn [isActive isDisintegrating].
    rewrite Hflag, andb_false_r. repeat split; assumption.
  - rewrite (runFrame_idle w Hf). repeat split; assumption.
  - rewrite (runTimer_idle w Ht). repeat split; assumption.
  - destruct (unmount_fields w) as (H1 & _ & H3 & H4 & H5).
    rewrite H1, H4. split; [exact Hflag|].
    split; [split; [apply H5, Hf | congruence]|].
    split; [reflexivity|].
    unfold unmount, cleanup. cbn [animationRef setFilterRef].
    destruct (animationRef w); auto.
Qed.

(** X10: when [performance.now()] returns a falsy number (0 or NaN) at the
    start, the activity flag goes up but the first tick returns at once:
    no frame and no timer is ever queued, and whatever renders, frames,
    timers and teardowns follow, the flag stays up, no attribute is written
    after the seed and [onComplete] is never called. *)
Theorem start_at_falsy_time_never_runs (w : World) (notify : bool)
  (dir : Direction.t) (tm : AnimationTiming) (es : list Event) :
  st_isDisintegrating w = false -> quiescent w ->
  truthy (clock w (clockReads w)) = false ->
  let w' := step w (Rendered true notify dir tm) in
  let w'' := run w' es in
  st_isDisintegrating w' = true /\ quiescent w'
  /\ st_isDisintegrating w'' = true /\ quiescent w''
  /\ completions w'' = completions w
  /\ writes w'' = writes w'.
Proof.
  intros Hflag [Hf Ht] Hnow w' w''.
  assert (Hw' : w' = armed w).
  { subst w'. cbn [step]. unfold isActiveEffect, render.
    cbn [isActive isDisintegrating]. rewrite Hflag. cbn [andb negb].
    rewrite startDisintegration_armed. apply animate_idle.
    destruct (armed_fields w) as (_ & _ & _ & _ & -> & _). exact Hnow. }
  destruct (armed_fields w) as (Hfr & Htm & Hco & Hfl & _).
  assert (H0 : st_isDisintegrating w' = true /\ quiescent w'
               /\ completions w' = completions w).
  { rewrite Hw'. split; [exact Hfl|]. split; [split; congruence | exact Hco]. }
  destruct H0 as (Hfl' & Hq' & Hco').
  split; [exact Hfl'|]. split; [exact Hq'|].
  subst w''. rewrite <- Hco'. clear Hw' Hco'.
  revert Hfl' Hq'. generalize w'. unfold run.
  induction es as [|e es IH]; intros u Hu Hq; cbn [fold_left].
  - auto.
  - destruct (step_inert u e Hu Hq) as (H1 & H2 & H3 & H4 & _).
    destruct (IH (step u e) H1 H2) as (I1 & I2 & I3 & I4).
    rewrite I3, I4, H3, H4. auto.
Qed.

Lemma start_at_falsy_time_never_runs_witness :
  let w := mounted (fun _ => 0) (fun _ => 0.5) in
  let w' := step w (Rendered true true Direction.random defaultTiming) in
  let w'' := run w' [Frame; Timer;
                     Rendered true true Direction.random defaultTiming;
                     Frame; Unmount; Timer] in
  st_isDisintegrating w'' = true /\ quiescent w''
  /\ completions w'' = 0%nat /\ writes w'' = [SetSeed 500].
Proof.
  intros w w' w''.
  destruct (start_at_falsy_time_never_runs w true Direction.random
              defaultTiming
              [Frame; Timer; Rendered true true Direction.random defaultTiming;
               Frame; Unmount; Timer])
    as (_ & _ & Hfl & Hq & Hco & Hwr);
    try reflexivity; [split; reflexivity|].
  split; [exact Hfl|]. split; [exact Hq|]. split; [exact Hco|].
  etransitivity; [exact Hwr|]. vm_compute. reflexivity.
Defined.

(** ** Channel selectors and the random direction *)

Lemma keepsSelectors_refl w : keepsSelectors w w.
Proof.
  split; [now right|]. exists []. split; [reflexivity | constructor].
Qed.

Lemma keepsSelectors_trans a b c :
  keepsSelectors a b -> keepsSelectors b c -> keepsSelectors a c.
Proof.
  intros [Hab (wb & Hwb & Hfb)] [Hbc (wc & Hwc & Hfc)]. split.
  - destruct Hbc as [Hc|Hc]; [now left|].
    destruct Hab as [Hb|Hb]; [|right; congruence].
    left. unfold selectorsOf in Hc. rewrite Hb in Hc.
    destruct (filterRef c); [discriminate | reflexivity].
  - exists (wc ++ wb). rewrite Hwc, Hwb, app_assoc.
    split; [reflexivity | now apply Forall_app].
Qed.

(** A tick of a render with direction ['random'] writes the scale only. *)
Lemma animate_random r w :
  direction r = Direction.random -> keepsSelectors w (animate r w).
Proof.
  intros Hdir.
  destruct (truthyOpt (startTimeRef w)) eqn:Ht;
    [|rewrite (animate_idle r w Ht); apply keepsSelectors_refl].
  unfold truthyOpt in Ht.
  destruct (startTimeRef w) as [startTime|] eqn:Hs; [|discriminate].
  destruct (filterRef w) as [f|] eqn:Hf.
  - rewrite (animate_attached r w f startTime Hf Hs Ht). cbv zeta.
    set (phase := fst (getPhaseProgress (timing r) _)).
    set (s := displacementScale _ _).
    destruct (ticked_fields r phase w) as (Hfil & Hwr & _).
    rewrite Hdir. cbn [Direction.eqb].
    unfold keepsSelectors, selectorsOf.
    destruct (negb (Phase_eqb phase complete)); cbn;
      rewrite Hfil, Hf, Hwr; (split; [right; reflexivity|]);
      (exists [SetScale s]; split; [reflexivity | repeat constructor]).
  - destruct (animate_no_filter r w Hf) as [Hf' Hw'].
    split; [now left|]. exists []. split; [exact Hw' | constructor].
Qed.

Lemma resetEffect_keepsSelectors r w : keepsSelectors w (resetEffect r w).
Proof.
  unfold resetEffect, keepsSelectors, selectorsOf.
  destruct (filterRef w) as [f|] eqn:Hf; destruct (onComplete r); cbn;
    rewrite ?Hf; (split; [right; reflexivity|]);
    first [ exists [SetScale 0]; split; [reflexivity | repeat constructor]
          | exists []; split; [reflexivity | constructor] ].
Qed.

Lemma armed_keepsSelectors w : keepsSelectors w (armed w).
Proof.
  pose proof (armed_filter w) as Ha.
  unfold keepsSelectors, selectorsOf.
  destruct (filterRef w) as [f|].
  - cbv zeta in Ha. destruct Ha as (-> & _ & ->).
    split; [right; reflexivity|].
    eexists [_]. split; [reflexivity | repeat constructor].
  - destruct Ha as (-> & _ & ->). split; [now left|].
    exists []. split; [reflexivity | constructor].
Qed.

Lemma animate_randomTicks r w :
  direction r = Direction.random -> randomTicks w ->
  randomTicks (animate r w).
Proof.
  intros Hdir Hw. unfold randomTicks.
  destruct (animate_schedule r w) as [-> | [(-> & _) | (-> & _)]];
    try assumption.
  apply Forall_app. split; [assumption | repeat constructor; exact Hdir].
Qed.

Lemma frames_random (l : list (positive * Render)) : forall w0,
  Forall (fun f => direction (snd f) = Direction.random) l ->
  randomTicks w0 ->
  let w := fold_left (fun w f => animate (snd f) w) l w0 in
  keepsSelectors w0 w /\ randomTicks w.
Proof.
  induction l as [|f l IH]; intros w0 Hl Hw0; cbn [fold_left].
  - split; [apply keepsSelectors_refl | exact Hw0].
  - inversion Hl as [|? ? Hf Hl']; subst.
    destruct (IH (animate (snd f) w0) Hl'
                (animate_randomTicks _ _ Hf Hw0)) as [H1 H2].
    split; [|exact H2].
    eapply keepsSelectors_trans; [apply animate_random, Hf | exact H1].
Qed.

Lemma step_random w e :
  randomTicks w ->
  match e with
  | Rendered _ _ dir _ => dir = Direction.random
  | _ => True
  end ->
  keepsSelectors w (step w e) /\ randomTicks (step w e).
Proof.
  intros Hw He. destruct e as [active notify dir tm| | |]; cbn [step].
  - unfold isActiveEffect.
    destruct (isActive _ && negb _);
      [|split; [apply keepsSelectors_refl | exact Hw]].
    rewrite startDisintegration_armed.
    assert (Hra : randomTicks (armed w)).
    { unfold randomTicks.
      now destruct (armed_fields w) as (-> & _). }
    split.
    + eapply keepsSelectors_trans; [apply armed_keepsSelectors|].
      apply animate_random. exact He.
    + apply animate_randomTicks; [exact He | exact Hra].
  - unfold runFrame.
    destruct (frames_random (frames w) (setFrames [] w) Hw) as [H1 H2];
      [constructor|].
    split; [exact H1 | exact H2].
  - unfold runTimer. destruct (timers w) as [|cb rest].
    + split; [apply keepsSelectors_refl | exact Hw].
    + split.
      * exact (resetEffect_keepsSelectors cb (setTimers rest w)).
      * unfold randomTicks.
        destruct (resetEffect_fields cb (setTimers rest w))
          as (_ & _ & -> & _).
        exact Hw.
  - split.
    + split; [left|exists []; split; [|constructor]];
        unfold unmount, cleanup; cbn [animationRef setFilterRef];
        destruct (animationRef w); reflexivity.
    + unfold randomTicks, unmount, cleanup. cbn [animationRef setFilterRef].
      destruct (animationRef w); cbn; [|exact Hw].
      apply incl_Forall with (l1 := frames w); [|exact Hw].
      intros x Hx. apply filter_In in Hx. tauto.
Qed.

(** X11: runs with direction ['random'] never write a channel selector and
    nothing else restores them: through any trace whose renders all have
    direction ['random'], from a world whose pending ticks do, the filter
    keeps the selectors it had (those an earlier ['left'] or ['up'] run
    wrote, or the rendered ones) for as long as it is attached. *)
Theorem random_runs_keep_selectors (w : World) (es : list Event) :
  randomTicks w -> randomRenders es ->
  keepsSelectors w (run w es).
Proof.
  intros Hw Hes. revert w Hw. unfold run.
  induction Hes as [|e es He _ IH]; intros w Hw; cbn [fold_left].
  - apply keepsSelectors_refl.
  - destruct (step_random w e Hw He) as [H1 H2].
    eapply keepsSelectors_trans; [exact H1 | apply IH, H2].
Qed.

(** A completed run to the left, then a random run: its ticks keep the
    selectors ['A'] and ['G'] of the run before. *)
Lemma random_runs_keep_selectors_witness :
  let clock := fun n => match n with
                        | 0%nat | 1%nat => 1000
                        | 2%nat => 3000
                        | 3%nat | 4%nat => 5000
                        | _ => 5500
                        end in
  let w := run (mounted clock (fun _ => 0.5))
               [Rendered true true Direction.left defaultTiming;
                Frame; Timer] in
  let es := [Rendered true true Direction.random defaultTiming;
             Frame; Frame] in
  selectorsOf w = Some (Channel.A, Channel.G)
  /\ selectorsOf (run w es) = Some (Channel.A, Channel.G)
  /\ option_map scale (filterRef (run w es)) = Some 151.875.
Proof.
  intros clock w es.
  assert (Hsel : selectorsOf w = Some (Channel.A, Channel.G))
    by (vm_compute; reflexivity).
  split; [exact Hsel|].
  destruct (random_runs_keep_selectors w es) as [[Hnone | Hkeep] _].
  - constructor.
  - repeat constructor.
  - vm_compute in Hnone. discriminate Hnone.
  - split; [congruence | vm_compute; reflexivity].
Defined.

(** ** Numbers that are not numbers *)

Lemma is_nan_spec x : is_nan x = true <-> Prim2SF x = S754_nan.
Proof.
  unfold is_nan. rewrite FloatAxioms.eqb_spec. unfold SFeqb. split.
  - destruct (Prim2SF x) as [[]|[]| |[] m e] eqn:E; cbn [SFcompare negb];
      try discriminate; try reflexivity;
      rewrite Z.compare_refl;
      change (Pos.compare_cont Eq m m) with (Pos.compare m m);
      rewrite Pos.compare_refl; discriminate.
  - intros ->. reflexivity.
Qed.

Lemma ltb_nan_r e b : is_nan b = true -> (e <? b) = false.
Proof.
  rewrite is_nan_spec, FloatAxioms.ltb_spec. intros ->. unfold SFltb.
  destruct (Prim2SF e) as [[]|[]| |[] m x]; reflexivity.
Qed.

Lemma ltb_nan_l e b : is_nan e = true -> (e <? b) = false.
Proof.
  rewrite is_nan_spec, FloatAxioms.ltb_spec. intros ->. reflexivity.
Qed.

Lemma add_nan_l x y : is_nan x = true -> is_nan (x + y) = true.
Proof.
  rewrite !is_nan_spec, FloatAxioms.add_spec. intros ->. reflexivity.
Qed.

Lemma add_nan_r x y : is_nan y = true -> is_nan (x + y) = true.
Proof.
  rewrite !is_nan_spec, FloatAxioms.add_spec. intros ->.
  unfold SF64add. destruct (Prim2SF x) as [[]|[]| |[] m e]; reflexivity.
Qed.

(** A phase other than [complete] is returned only before its boundary. *)
Lemma getPhaseProgress_before timing elapsed :
  fst (getPhaseProgress timing elapsed) <> complete ->
  before timing elapsed (fst (getPhaseProgress timing elapsed)) = true.
Proof.
  unfold getPhaseProgress, before.
  destruct (elapsed <? delayOf timing) eqn:E0; [intros _; exact E0|].
  destruct (elapsed <? delayOf timing + fadeInOf timing) eqn:E1;
    [intros _; exact E1|].
  destruct (elapsed <? delayOf timing + fadeInOf timing + holdOf timing)
    eqn:E2; [intros _; exact E2|].
  destruct (elapsed <? delayOf timing + fadeInOf timing + holdOf timing
                       + fadeOutOf timing) eqn:E3; [intros _; exact E3|].
  intros H. now contradiction H.
Qed.

(** A NaN duration makes its own boundary and every later one NaN. *)
Lemma boundary_nan timing p q d b :
  durationOf timing q = Some d -> is_nan d = true ->
  (phaseRank q <= phaseRank p)%nat ->
  boundary timing p = Some b -> is_nan b = true.
Proof.
  intros Hd Hnan Hrank Hb.
  destruct q; cbn in Hd; try discriminate Hd; injection Hd as Hd; subst d;
    destruct p; cbn in Hrank; try lia; cbn in Hb; try discriminate Hb;
    injection Hb as Hb; subst b;
    auto using add_nan_l, add_nan_r.
Qed.

(** X12: NaN never selects a phase.  A NaN elapsed time is classified as
    [(complete, 1)], and a NaN duration removes its own phase and every
    later one: the result is an earlier phase or [complete]. *)
Theorem getPhaseProgress_nan (timing : AnimationTiming) (elapsed : float) :
  (is_nan elapsed = true -> getPhaseProgress timing elapsed = (complete, 1))
  /\ (forall p q d,
        durationOf timing q = Some d -> is_nan d = true ->
        (phaseRank q <= phaseRank p)%nat -> p <> complete ->
        fst (getPhaseProgress timing elapsed) <> p).
Proof.
  split.
  - intros Hnan. unfold getPhaseProgress.
    now rewrite !(ltb_nan_l elapsed _ Hnan).
  - intros p q d Hd Hnan Hrank Hp Heq.
    pose proof (getPhaseProgress_before timing elapsed) as Hb.
    rewrite Heq in Hb. specialize (Hb Hp). unfold before in Hb.
    destruct (boundary timing p) as [b|] eqn:Eb; [|discriminate].
    rewrite (ltb_nan_r elapsed b) in Hb; [discriminate|].
    exact (boundary_nan timing p q d b Hd Hnan Hrank Eb).
Qed.

(** A NaN [fadeInDuration]: the delay is served, then the run is complete. *)
Lemma getPhaseProgress_nan_witness :
  let timing := {| initialDelay := Some 200; fadeInDuration := Some nan;
                   holdDuration := Some 200; fadeOutDuration := Some 1200 |} in
  getPhaseProgress timing nan = (complete, 1)
  /\ fst (getPhaseProgress timing 300) <> fadeIn
  /\ fst (getPhaseProgress timing 300) <> fadeOut
  /\ getPhaseProgress timing 300 = (complete, 1).
Proof.
  intros timing.
  destruct (getPhaseProgress_nan timing nan) as [H1 _].
  destruct (getPhaseProgress_nan timing 300) as [_ H2].
  split; [apply H1; reflexivity|].
  split; [apply (H2 fadeIn fadeIn nan);
          first [reflexivity | discriminate | cbn; lia]|].
  split; [apply (H2 fadeOut fadeIn nan);
          first [reflexivity | discriminate | cbn; lia]|].
  vm_compute. reflexivity.
Defined.

(** ** The page *)

Lemma orElse_number v : is_nan (orElse (Some v) 0) = false.
Proof.
  unfold orElse, truthy. destruct (negb (v =? 0)); cbn [andb]; [|reflexivity].
  destruct (is_nan v) eqn:E; cbn [negb]; [reflexivity | exact E].
Qed.

Lemma numeric_setTimingKey key parsed t :
  App.numeric t ->
  App.numeric (App.setTimingKey key (orElse (Some parsed) 0) t).
Proof.
  intros (d0 & d1 & d2 & d3 & -> & H0 & H1 & H2 & H3).
  pose proof (orElse_number parsed) as Hv.
  destruct key; cbn;
    [exists (orElse (Some parsed) 0), d1, d2, d3
    |exists d0, (orElse (Some parsed) 0), d2, d3
    |exists d0, d1, (orElse (Some parsed) 0), d3
    |exists d0, d1, d2, (orElse (Some parsed) 0)]; auto 6.
Qed.

Lemma notifying_animate r w :
  onComplete r = true -> App.notifying w -> App.notifying (animate r w).
Proof.
  intros Hr [Hf Ht]. unfold App.notifying.
  destruct (animate_schedule r w)
    as [-> | [(-> & _ & ->) | (-> & _ & ->)]]; [auto | |].
  - split; [|exact Ht]. apply Forall_app. split; [exact Hf|].
    repeat constructor. exact Hr.
  - split; [exact Hf|]. apply Forall_app. split; [exact Ht|].
    repeat constructor. exact Hr.
Qed.

Lemma notifying_frames (l : list (positive * Render)) : forall w0,
  Forall (fun f => onComplete (snd f) = true) l ->
  App.notifying w0 ->
  App.notifying (fold_left (fun w f => animate (snd f) w) l w0).
Proof.
  induction l as [|f l IH]; intros w0 Hl Hw0; cbn [fold_left]; [exact Hw0|].
  inversion Hl as [|? ? Hf Hl']; subst.
  apply IH; [exact Hl' | apply notifying_animate; assumption].
Qed.

Lemma notifying_runFrame w : App.notifying w -> App.notifying (runFrame w).
Proof.
  intros [Hf Ht]. unfold runFrame.
  apply notifying_frames; [exact Hf|]. split; [constructor | exact Ht].
Qed.

Lemma notifying_start r w :
  onComplete r = true -> App.notifying w ->
  App.notifying (isActiveEffect r w).
Proof.
  intros Hr Hw. unfold isActiveEffect.
  destruct (isActive r && negb (isDisintegrating r)); [|exact Hw].
  rewrite startDisintegration_armed. apply notifying_animate; [exact Hr|].
  unfold App.notifying.
  destruct (armed_fields w) as (-> & -> & _). exact Hw.
Qed.

(** A timer on a consistent page: nothing is pending, or the reset of the
    finished run calls [handleComplete]. *)
Lemma consistent_timer s :
  App.consistent s ->
  (timers (App.child s) = [] /\ App.step s App.Timer = s)
  \/ (exists cb, timers (App.child s) = [cb]
        /\ st_isDisintegrating (App.child s) = true
        /\ App.step s App.Timer
           = {| App.isActive := false; App.direction := App.direction s;
                App.timing := App.timing s;
                App.filterParams := App.filterParams s;
                App.child := resetEffect cb (setTimers [] (App.child s)) |}
        /\ completions (resetEffect cb (setTimers [] (App.child s)))
           = S (completions (App.child s))).
Proof.
  intros (Hact & [Hshape Hidle] & [_ Hnt] & _).
  cbn [App.step]. unfold runTimer.
  destruct Hshape as [[Hf Ht] | [(h & r & Hf & Href & Ht) | (r & Hf & Ht)]].
  - left. rewrite Ht, Nat.ltb_irrefl. split; [reflexivity|].
    destruct s; reflexivity.
  - left. rewrite Ht, Nat.ltb_irrefl. split; [reflexivity|].
    destruct s; reflexivity.
  - right. exists r. rewrite Ht.
    assert (Hr : onComplete r = true)
      by (rewrite Ht in Hnt; now inversion Hnt).
    destruct (resetEffect_fields r (setTimers [] (App.child s)))
      as (_ & _ & _ & _ & Hco & _).
    rewrite Hr in Hco. cbn [completions setTimers] in Hco.
    assert (Hflag : st_isDisintegrating (App.child s) = true).
    { destruct (st_isDisintegrating (App.child s)) eqn:E; [reflexivity|].
      destruct (Hidle eq_refl) as [[_ Ht'] _]. congruence. }
    split; [reflexivity|]. split; [exact Hflag|]. split; [|exact Hco].
    rewrite Hco. replace (_ <? _)%nat with true
      by (symmetry; apply Nat.ltb_lt; lia).
    unfold App.handleComplete, App.setIsActive.
    cbn [App.isActive App.withChild]. rewrite Hact, Hflag.
    cbn [Bool.eqb]. unfold App.withChild, App.renderChild.
    cbn [App.isActive App.child App.direction App.timing App.filterParams].
    unfold isActiveEffect, render. cbn [isActive andb]. reflexivity.
Qed.

Lemma consistent_step s e : App.consistent s -> App.consistent (App.step s e).
Proof.
  intros Hs. pose proof Hs as (Hact & Hlife & Hnot & Hnum).
  destruct e as [|value|key parsed|key parsed| |].
  - (* Click *)
    cbn [App.step]. unfold App.setIsActive.
    destruct (App.isActive s) eqn:E; cbn [Bool.eqb]; [exact Hs|].
    unfold App.consistent, App.withChild, App.renderChild.
    cbn [App.isActive App.child App.direction App.timing App.filterParams].
    split; [|split; [|split]].
    + unfold isActiveEffect, render. cbn [isActive isDisintegrating].
      rewrite <- Hact. cbn [andb negb].
      now rewrite startDisintegration_active.
    + apply lifecycle_isActiveEffect; [reflexivity | exact Hlife].
    + apply notifying_start; [reflexivity | exact Hnot].
    + exact Hnum.
  - exact Hs.
  - split; [exact Hact|]. split; [exact Hlife|]. split; [exact Hnot|].
    cbn. apply numeric_setTimingKey, Hnum.
  - exact Hs.
  - (* Frame *)
    cbn [App.step]. unfold App.consistent, App.withChild.
    cbn [App.isActive App.child App.timing].
    destruct (runFrame_preserves (App.child s)) as [-> _].
    split; [exact Hact|]. split; [apply lifecycle_runFrame, Hlife|].
    split; [apply notifying_runFrame, Hnot | exact Hnum].
  - (* Timer *)
    destruct (consistent_timer s Hs) as [[_ ->] | (cb & Ht & _ & -> & _)];
      [exact Hs|].
    unfold App.consistent. cbn [App.isActive App.child App.timing].
    destruct (resetEffect_fields cb (setTimers [] (App.child s)))
      as (Hflag & _ & Hfr & Htm & _).
    split; [now rewrite Hflag|].
    split.
    { pose proof (lifecycle_runTimer (App.child s) Hlife) as H.
      unfold runTimer in H. now rewrite Ht in H. }
    split; [|exact Hnum].
    destruct Hnot as [Hnf _]. unfold App.notifying. rewrite Hfr, Htm.
    split; [exact Hnf | constructor].
Qed.

Lemma consistent_init clock entropy : App.consistent (App.init clock entropy).
Proof.
  split; [reflexivity|]. split; [apply lifecycle_mounted|].
  split; [split; constructor|].
  exists 200, 400, 200, 1200. repeat split; reflexivity.
Qed.

Lemma consistent_run es : forall s,
  App.consistent s -> App.consistent (App.run s es).
Proof.
  unfold App.run. induction es as [|e es IH]; intros s H; cbn [fold_left].
  - exact H.
  - apply IH, consistent_step, H.
Qed.

Lemma page_accounting s e :
  App.consistent s ->
  (completions (App.child (App.step s e))
   + activeRuns (App.child (App.step s e))
   <= completions (App.child s) + activeRuns (App.child s)
      + App.clicks [e])%nat.
Proof.
  intros Hs. pose proof Hs as (Hact & Hlife & _).
  unfold activeRuns, App.clicks.
  destruct e as [|value|key parsed|key parsed| |]; cbn [filter length].
  - cbn [App.step]. unfold App.setIsActive.
    destruct (App.isActive s) eqn:E; cbn [Bool.eqb]; [lia|].
    unfold App.withChild, App.renderChild.
    cbn [App.isActive App.child App.direction App.timing].
    unfold isActiveEffect, render. cbn [isActive isDisintegrating].
    rewrite <- Hact. cbn [andb negb].
    rewrite startDisintegration_active, startDisintegration_completions.
    lia.
  - cbn. lia.
  - cbn. lia.
  - cbn. lia.
  - cbn [App.step App.withChild App.child].
    destruct (runFrame_preserves (App.child s)) as [-> ->]. lia.
  - destruct (consistent_timer s Hs)
      as [[_ ->] | (cb & _ & Hflag & -> & Hco)]; [lia|].
    cbn [App.child]. rewrite Hco, Hflag.
    destruct (resetEffect_fields cb (setTimers [] (App.child s)))
      as (-> & _). lia.
Qed.

Lemma clicks_cons e es :
  App.clicks (e :: es) = (App.clicks [e] + App.clicks es)%nat.
Proof. unfold App.clicks. cbn [filter]. destruct e; reflexivity. Qed.

Lemma page_run_accounting es : forall s,
  App.consistent s ->
  (completions (App.child (App.run s es))
   + activeRuns (App.child (App.run s es))
   <= completions (App.child s) + activeRuns (App.child s)
      + App.clicks es)%nat.
Proof.
  unfold App.run.
  induction es as [|e es IH]; intros s Hs; cbn [fold_left].
  - cbn. lia.
  - pose proof (page_accounting s e Hs) as H1.
    pose proof (IH (App.step s e) (consistent_step s e Hs)) as H2.
    rewrite clicks_cons. lia.
Qed.

(** X13: whatever clicks, control inputs, frames and timers the page sees,
    [isActive] of [App] equals the activity flag of the component, the
    schedule keeps one of its three shapes, the timing passed down has all
    four fields and none is NaN (so no default of [getPhaseProgress]
    applies), and [onComplete] has been called at most once per click. *)
Theorem App_page_consistent (clock entropy : nat -> float)
  (es : list App.Event) :
  let s := App.run (App.init clock entropy) es in
  App.isActive s = st_isDisintegrating (App.child s)
  /\ lifecycle (App.child s)
  /\ App.numeric (App.timing s)
  /\ (completions (App.child s) <= App.clicks es)%nat.
Proof.
  intros s. subst s.
  destruct (consistent_run es _ (consistent_init clock entropy))
    as (H1 & H2 & _ & H4).
  split; [exact H1|]. split; [exact H2|]. split; [exact H4|].
  pose proof (page_run_accounting es _ (consistent_init clock entropy)) as H.
  cbn [App.init App.child completions mounted] in H.
  unfold activeRuns in H at 2. cbn in H. lia.
Qed.

(** X14: on the page, a click while [isActive] is true changes nothing; a
    click while it is false starts a run whose start time is the next clock
    reading; and the timer that resets a finished run calls
    [handleComplete], which clears [isActive], so the next click starts
    again. *)
Theorem App_click_cycle (ticks entropy : nat -> float)
  (es : list App.Event) :
  let s := App.run (App.init ticks entropy) es in
  (App.isActive s = true -> App.step s App.Click = s)
  /\ (App.isActive s = false ->
      let s' := App.step s App.Click in
      App.isActive s' = true
      /\ st_isDisintegrating (App.child s') = true
      /\ startTimeRef (App.child s')
         = Some (clock (App.child s) (clockReads (App.child s)))
      /\ completions (App.child s') = completions (App.child s))
  /\ (timers (App.child s) <> [] ->
      let s' := App.step s App.Timer in
      App.isActive s = true /\ App.isActive s' = false
      /\ st_isDisintegrating (App.child s') = false
      /\ completions (App.child s') = S (completions (App.child s))).
Proof.
  intros s.
  assert (Hs : App.consistent s)
    by (apply consistent_run, consistent_init).
  pose proof Hs as (Hact & _).
  split; [|split].
  - intros E. cbn [App.step]. unfold App.setIsActive. now rewrite E.
  - intros E s'. subst s'. cbn [App.step]. unfold App.setIsActive.
    rewrite E. cbn [Bool.eqb]. unfold App.withChild, App.renderChild.
    cbn [App.isActive App.child App.direction App.timing].
    unfold isActiveEffect, render. cbn [isActive isDisintegrating].
    rewrite <- Hact, E. cbn [andb negb].
    rewrite startDisintegration_active, startDisintegration_completions.
    rewrite startDisintegration_armed.
    destruct (animate_preserves
                {| isActive := true; onComplete := true;
                   direction := App.direction s; timing := App.timing s;
                   isDisintegrating := false;
                   animationPhase := st_animationPhase (App.child s) |}
                (armed (App.child s))) as (_ & -> & _).
    destruct (armed_fields (App.child s)) as (_ & _ & _ & _ & -> & _).
    auto.
  - intros Hne s'. subst s'.
    destruct (consistent_timer s Hs)
      as [[Ht _] | (cb & _ & Hflag & -> & Hco)]; [contradiction|].
    cbn [App.isActive App.child].
    destruct (resetEffect_fields cb (setTimers [] (App.child s)))
      as (-> & _).
    rewrite Hact. auto.
Qed.
